(** * Worker / task assignment engine ([src/lib/data.ts])

    A shallow embedding of the in-memory store of [lib/data.ts] and of the
    filter pipeline of [app/tasks/page.tsx], with the properties the
    specification states about them.

    Modelling conventions.
    - JavaScript [number]s that hold hours are IEEE 754 binary64 values:
      the primitive [float]s of Rocq, whose [+], [-], [<] and [<=] are
      the correctly rounded operations and the comparisons of the
      standard, [NaN] and the infinities included.  The counters are
      [nat].
    - [workers] is the array of worker objects; the position in the array
      is the identity of the object.  [workerMap] is the JavaScript [Map]
      from ids to those same objects, so it is a finite map from ids to
      positions: a write through the map is a write to the array element.
    - A [throw new Error(msg)] is a [Throw e]; [message e] is the text.
    - [saveData] writes the snapshot to [localStorage]; the snapshot is the
      state itself.  The operations are given for a write that succeeds;
      [addTaskTo] is [addTask] for a write that may fail. *)

From Stdlib Require Import Ascii String ZArith Floats DecimalString DecimalNat.
From stdpp Require Import base numbers list strings gmap sorting.

Local Open Scope float_scope.

(** [x < y] and [x ≤ y] on numbers are the tests [x < y] and [x <= y] of
    the language coming out [true]; both are [false] when a side is
    [NaN]. *)
Notation "x < y" := (PrimFloat.ltb x y = true) : float_scope.
Notation "x ≤ y" := (PrimFloat.leb x y = true) : float_scope.

Global Instance float_eq_dec : EqDecision float.
Proof.
  intros x y. destruct (PrimFloat.Leibniz.eqb x y) eqn:E.
  - left. by apply FloatAxioms.Leibniz.eqb_spec.
  - right. intros H. apply FloatAxioms.Leibniz.eqb_spec in H. congruence.
Defined.

(** ** Data model ([lib/types.ts]) *)

Inductive Priority := high | medium | low.

Global Instance Priority_eq_dec : EqDecision Priority.
Proof. solve_decision. Defined.

Record Worker := mkWorker {
  worker_id : string;
  worker_name : string;
  availability : bool;
  totalAssignedHours : float;
}.

Record Task := mkTask {
  task_id : string;
  description : string;
  priority : Priority;
  timeEstimate : float;
  deadline : string;
  assignedTo : option string;       (* [string | null] *)
  createdAt : string;
  completed : bool;
}.

Record State := mkState {
  workers : list Worker;
  tasks : list Task;
  workerMap : gmap string nat;
  nextWorkerId : nat;
  nextTaskId : nat;
}.

Global Instance Worker_eq_dec : EqDecision Worker.
Proof. solve_decision. Defined.
Global Instance Task_eq_dec : EqDecision Task.
Proof. solve_decision. Defined.
Global Instance State_eq_dec : EqDecision State.
Proof. solve_decision. Defined.

Definition MAX_WORK_HOURS_PER_DAY : float := 8.

Definition PRIORITY_WEIGHTS (p : Priority) : Z :=
  match p with high => 3 | medium => 2 | low => 1 end.

(** The state the module starts in (and falls back to when loading fails). *)
Definition initialState : State :=
  {| workers := []; tasks := []; workerMap := ∅;
     nextWorkerId := 1; nextTaskId := 1 |}.

(** ** Errors *)

Inductive Error :=
| TaskNotFound (taskId : string)
| WorkerNotFound (workerId : string)
| WorkerNotAvailable (name : string)
| WouldExceedMaximumHours (name : string)
| FailedToSaveData.

Definition message (e : Error) : string :=
  match e with
  | TaskNotFound taskId => "Task with ID " +:+ taskId +:+ " not found"
  | WorkerNotFound workerId => "Worker with ID " +:+ workerId +:+ " not found"
  | WorkerNotAvailable name => "Worker " +:+ name +:+ " is not available"
  | WouldExceedMaximumHours name =>
      "Worker " +:+ name +:+ " would exceed maximum hours (8)"
  | FailedToSaveData => "Failed to save data"
  end.

Inductive Result (A : Type) :=
| Ok (a : A)
| Throw (e : Error).
Arguments Ok {A} a.
Arguments Throw {A} e.

Global Instance Error_eq_dec : EqDecision Error.
Proof. solve_decision. Defined.
Global Instance Result_eq_dec `{EqDecision A} : EqDecision (Result A).
Proof. solve_decision. Defined.

(** ** Field updates *)

Definition set_availability (b : bool) (w : Worker) : Worker :=
  {| worker_id := worker_id w; worker_name := worker_name w;
     availability := b; totalAssignedHours := totalAssignedHours w |}.

Definition set_totalAssignedHours (h : float) (w : Worker) : Worker :=
  {| worker_id := worker_id w; worker_name := worker_name w;
     availability := availability w; totalAssignedHours := h |}.

(** [w.totalAssignedHours += h] and [w.totalAssignedHours -= h]. *)
Definition add_hours (h : float) (w : Worker) : Worker :=
  set_totalAssignedHours (totalAssignedHours w + h) w.
Definition sub_hours (h : float) (w : Worker) : Worker :=
  set_totalAssignedHours (totalAssignedHours w - h) w.

Definition set_assignedTo (a : option string) (t : Task) : Task :=
  {| task_id := task_id t; description := description t;
     priority := priority t; timeEstimate := timeEstimate t;
     deadline := deadline t; assignedTo := a; createdAt := createdAt t;
     completed := completed t |}.

Definition set_completed (b : bool) (t : Task) : Task :=
  {| task_id := task_id t; description := description t;
     priority := priority t; timeEstimate := timeEstimate t;
     deadline := deadline t; assignedTo := assignedTo t;
     createdAt := createdAt t; completed := b |}.

Definition with_workers (ws : list Worker) (st : State) : State :=
  {| workers := ws; tasks := tasks st; workerMap := workerMap st;
     nextWorkerId := nextWorkerId st; nextTaskId := nextTaskId st |}.

Definition with_tasks (ts : list Task) (st : State) : State :=
  {| workers := workers st; tasks := ts; workerMap := workerMap st;
     nextWorkerId := nextWorkerId st; nextTaskId := nextTaskId st |}.

(** ** Identifiers: [`W${String(n).padStart(3, '0')}`] *)

Definition String_of_nat (n : nat) : string :=
  NilEmpty.string_of_uint (Nat.to_uint n).

Fixpoint repeat_char (c : ascii) (n : nat) : string :=
  match n with
  | O => EmptyString
  | S k => String c (repeat_char c k)
  end.

(** [s.padStart(targetLength, c)] for a one-character pad. *)
Definition padStart (targetLength : nat) (c : ascii) (s : string) : string :=
  repeat_char c (targetLength - String.length s) +:+ s.

Definition workerIdOf (n : nat) : string :=
  "W" +:+ padStart 3 "0"%char (String_of_nat n).
Definition taskIdOf (n : nat) : string :=
  "T" +:+ padStart 3 "0"%char (String_of_nat n).

(** ** Lookups *)

(** [tasks.find(t => t.id === taskId)], with the position of the hit. *)
Definition findTask (st : State) (taskId : string) : option (nat * Task) :=
  list_find (λ t, task_id t = taskId) (tasks st).

(** [workerMap.get(id)]: the object, and where it lives. *)
Definition workerMap_get (st : State) (id : string) : option (nat * Worker) :=
  match workerMap st !! id with
  | Some j => match workers st !! j with
              | Some w => Some (j, w)
              | None => None
              end
  | None => None
  end.

Definition getWorkerById (st : State) (id : string) : option Worker :=
  snd <$> workerMap_get st id.

(** Truthiness of a [string | null]: [null] and the empty string are falsy. *)
Definition truthy (a : option string) : bool :=
  match a with
  | Some s => negb (String.eqb s "")
  | None => false
  end.

(** ** Worker registry *)

Definition addWorker (name : string) (st : State) : Worker * State :=
  let id := workerIdOf (nextWorkerId st) in
  let worker := {| worker_id := id; worker_name := name;
                   availability := true; totalAssignedHours := 0 |} in
  (worker,
   {| workers := workers st ++ [worker];
      tasks := tasks st;
      workerMap := <[id := length (workers st)]> (workerMap st);
      nextWorkerId := S (nextWorkerId st);
      nextTaskId := nextTaskId st |}).

Definition updateWorkerAvailability (id : string) (b : bool) (st : State)
  : Result State :=
  match workerMap_get st id with
  | None => Throw (WorkerNotFound id)
  | Some (j, _) => Ok (with_workers (alter (set_availability b) j (workers st)) st)
  end.

Definition getAvailableWorkers (st : State) : list Worker :=
  filter (λ w, availability w = true ∧ totalAssignedHours w < MAX_WORK_HOURS_PER_DAY)
         (workers st).

(** ** Task store *)

(** [now] is the value of [new Date().toISOString()] at the call. *)
Definition addTask (desc : string) (p : Priority) (estimate : float)
    (dl : string) (now : string) (st : State) : Result (Task * State) :=
  let id := taskIdOf (nextTaskId st) in
  let task := {| task_id := id; description := desc; priority := p;
                 timeEstimate := estimate; deadline := dl;
                 assignedTo := None; createdAt := now;
                 completed := false |} in
  Ok (task,
      {| workers := workers st;
         tasks := tasks st ++ [task];
         workerMap := workerMap st;
         nextWorkerId := nextWorkerId st;
         nextTaskId := S (nextTaskId st) |}).

Definition getUnassignedTasks (st : State) : list Task :=
  filter (λ t, assignedTo t = None ∧ completed t = false) (tasks st).

(** ** Assignment engine *)

(** The [if (task.assignedTo) { prevWorker = workerMap.get(...); ... }]
    block shared by [assignTaskToWorker] and [unassignTask]: the previous
    owner, when there is one and the map knows it, gets the hours back. *)
Definition creditPrevious (st : State) (task : Task) : list Worker :=
  match assignedTo task with
  | Some prev =>
      if truthy (Some prev) then
        match workerMap st !! prev with
        | Some k => alter (sub_hours (timeEstimate task)) k (workers st)
        | None => workers st
        end
      else workers st
  | None => workers st
  end.

Definition assignTaskToWorker (taskId workerId : string) (st : State)
  : Result State :=
  match findTask st taskId with
  | None => Throw (TaskNotFound taskId)
  | Some (i, task) =>
    match workerMap_get st workerId with
    | None => Throw (WorkerNotFound workerId)
    | Some (j, worker) =>
      if negb (availability worker) then
        Throw (WorkerNotAvailable (worker_name worker))
      else if MAX_WORK_HOURS_PER_DAY
              <? totalAssignedHours worker + timeEstimate task then
        Throw (WouldExceedMaximumHours (worker_name worker))
      else
        let ws1 := creditPrevious st task in
        let ts := <[i := set_assignedTo (Some workerId) task]> (tasks st) in
        let ws2 := alter (add_hours (timeEstimate task)) j ws1 in
        Ok (with_tasks ts (with_workers ws2 st))
    end
  end.

Definition unassignTask (taskId : string) (st : State) : Result State :=
  match findTask st taskId with
  | None => Throw (TaskNotFound taskId)
  | Some (i, task) =>
    if truthy (assignedTo task) then
      let ws := creditPrevious st task in
      let ts := <[i := set_assignedTo None task]> (tasks st) in
      Ok (with_tasks ts (with_workers ws st))
    else Ok st
  end.

Definition completeTask (taskId : string) (st : State) : Result State :=
  match findTask st taskId with
  | None => Throw (TaskNotFound taskId)
  | Some (i, task) =>
    Ok (with_tasks (<[i := set_completed true task]> (tasks st)) st)
  end.

(** ** Engine operations as a transition system

    As long as the snapshot can be written, every [throw] of the module
    happens before the first assignment to the store, so a call that
    throws leaves the store as it was. *)

Inductive Op :=
| OpAddWorker (name : string)
| OpSetAvailability (id : string) (b : bool)
| OpAddTask (desc : string) (p : Priority) (estimate : float) (dl now : string)
| OpAssign (taskId workerId : string)
| OpUnassign (taskId : string)
| OpComplete (taskId : string).

Definition orElse (st : State) (r : Result State) : State :=
  match r with Ok st' => st' | Throw _ => st end.

Definition step (o : Op) (st : State) : State :=
  match o with
  | OpAddWorker name => (addWorker name st).2
  | OpSetAvailability id b => orElse st (updateWorkerAvailability id b st)
  | OpAddTask desc p estimate dl now =>
      match addTask desc p estimate dl now st with
      | Ok (_, st') => st'
      | Throw _ => st
      end
  | OpAssign taskId workerId => orElse st (assignTaskToWorker taskId workerId st)
  | OpUnassign taskId => orElse st (unassignTask taskId st)
  | OpComplete taskId => orElse st (completeTask taskId st)
  end.

Definition run (ops : list Op) (st : State) : State :=
  foldl (λ s o, step o s) st ops.

(** ** Booked hours *)

Definition sumHours (ts : list Task) : float :=
  foldr (λ t acc, timeEstimate t + acc) 0 ts.

(** Sum of the estimates of the tasks bound to worker [wid]. *)
Definition assignedHours (wid : string) (ts : list Task) : float :=
  sumHours (filter (λ t, assignedTo t = Some wid) ts).

(** The same sum restricted to the tasks that are not completed. *)
Definition activeHours (wid : string) (ts : list Task) : float :=
  sumHours (filter (λ t, assignedTo t = Some wid ∧ completed t = false) ts).

(** ** Consistency of a store *)

Record consistent (st : State) : Prop := {
  (* the map is the index of the array (so worker ids are unique) *)
  con_map : ∀ id j,
    workerMap st !! id = Some j ↔ (worker_id <$> workers st) !! j = Some id;
  con_worker_ids : ∀ id, id ∈ worker_id <$> workers st → id ≠ "";
  con_task_ids : NoDup (task_id <$> tasks st);
  (* [assignedTo] is null or the id of a registered worker *)
  con_owner : ∀ t wid,
    t ∈ tasks st → assignedTo t = Some wid → wid ∈ worker_id <$> workers st;
}.

(** Ids were issued by the allocator, below the current counters. *)
Record issued (st : State) : Prop := {
  iss_workers : ∀ id,
    id ∈ worker_id <$> workers st → ∃ n, (n < nextWorkerId st)%nat ∧ id = workerIdOf n;
  iss_tasks : ∀ id,
    id ∈ task_id <$> tasks st → ∃ n, (n < nextTaskId st)%nat ∧ id = taskIdOf n;
}.

Definition wf (st : State) : Prop := consistent st ∧ issued st.

(** The record of a worker once [task] has been assigned to the worker
    with id [target]: the hours go back to the previous owner, then the
    target is charged (the two [-=] and [+=] of [assignTaskToWorker]). *)
Definition afterAssign (task : Task) (target : string) (w : Worker) : Worker :=
  let w1 := if decide (assignedTo task = Some (worker_id w))
            then sub_hours (timeEstimate task) w else w in
  if decide (worker_id w = target) then add_hours (timeEstimate task) w1 else w1.

(** The record of a worker once [task] has been unassigned. *)
Definition afterUnassign (task : Task) (w : Worker) : Worker :=
  if decide (assignedTo task = Some (worker_id w))
  then sub_hours (timeEstimate task) w else w.

(** ** Hours in steps of half an hour

    The task form offers estimates from 0.5 in steps of 0.5.  [halfHours k]
    is the number [k / 2]; up to a working day, and well beyond, these
    numbers and their sums and differences are binary64 values, so the
    arithmetic of the module is exact on them. *)
Fixpoint halfHours (k : nat) : float :=
  match k with
  | O => 0
  | S n => halfHours n + 0.5
  end.

(** The [k ≤ 16] with [x = halfHours k], when there is one. *)
Definition halfHourUnits (x : float) : option nat :=
  fst <$> list_find (λ k, x = halfHours k) (seq 0 17).

Definition estimateUnits (t : Task) : nat :=
  default 0%nat (halfHourUnits (timeEstimate t)).

(** The half hours of the tasks bound to worker [wid]. *)
Definition assignedUnits (wid : string) (ts : list Task) : nat :=
  sum_list (estimateUnits <$> filter (λ t, assignedTo t = Some wid) ts).

(** What one task contributes to [assignedUnits wid]. *)
Definition unitsFor (wid : string) (t : Task) : nat :=
  if decide (assignedTo t = Some wid) then estimateUnits t else 0%nat.

(** An estimate as the form produces it: 0.5, 1, 1.5, ..., 8. *)
Definition halfHourEstimate (x : float) : Prop :=
  ∃ k, (1 ≤ k ≤ 16)%nat ∧ x = halfHours k.

Definition halfHourEstimates (st : State) : Prop :=
  ∀ t, t ∈ tasks st → halfHourEstimate (timeEstimate t).

(** Every worker holds exactly the half hours of the tasks bound to it,
    a working day at most. *)
Definition hoursInHalves (st : State) : Prop :=
  ∀ w, w ∈ workers st →
       (assignedUnits (worker_id w) (tasks st) ≤ 16)%nat
       ∧ totalAssignedHours w = halfHours (assignedUnits (worker_id w) (tasks st)).

(** Nothing is assigned yet: every worker holds 0 hours and every task is
    unassigned. *)
Definition nothingAssigned (st : State) : Prop :=
  (∀ w, w ∈ workers st → totalAssignedHours w = 0)
  ∧ (∀ t, t ∈ tasks st → assignedTo t = None).

Definition withinCapacity (st : State) : Prop :=
  ∀ w, w ∈ workers st →
       0 ≤ totalAssignedHours w ∧ totalAssignedHours w ≤ MAX_WORK_HOURS_PER_DAY.

(** Every worker's hours are the sum of the estimates of the tasks bound
    to it, completed or not. *)
Definition hoursMatch (st : State) : Prop :=
  ∀ w, w ∈ workers st →
       totalAssignedHours w = assignedHours (worker_id w) (tasks st).

(** The hours a worker can hold in steps of half an hour: 0, 0.5, ..., 8. *)
Definition halfHourTotal (x : float) : Prop :=
  ∃ k, (k ≤ 16)%nat ∧ x = halfHours k.

(** Operations whose estimates are the form's. *)
Definition validOp (o : Op) : Prop :=
  match o with
  | OpAddTask _ _ estimate _ _ => halfHourEstimate estimate
  | _ => True
  end.

(** ** Query layer

    [getTime s] stands for [new Date(s).getTime()]: the epoch milliseconds
    of the instant [s] denotes, or [None] where JavaScript gives [NaN]
    (an invalid date).  The parser of [Date] is the host's and is taken as
    a parameter. *)

Definition validateDate (getTime : string → option Z) (dateString : string) : bool :=
  bool_decide (is_Some (getTime dateString)).

(** The comparator of [sortTasksByPriority]; [None] is a [NaN] result. *)
Definition comparePriority (getTime : string → option Z) (a b : Task) : option Z :=
  let priorityDiff := (PRIORITY_WEIGHTS (priority b) - PRIORITY_WEIGHTS (priority a))%Z in
  if decide (priorityDiff ≠ 0%Z) then Some priorityDiff
  else match getTime (deadline a), getTime (deadline b) with
       | Some x, Some y => Some (x - y)%Z
       | _, _ => None
       end.

(** The comparator of [sortTasksByDeadline]. *)
Definition compareDeadline (getTime : string → option Z) (a b : Task) : option Z :=
  match getTime (deadline a), getTime (deadline b) with
  | Some x, Some y => Some (x - y)%Z
  | _, _ => None
  end.

(** [Array.prototype.sort(comparefn)].  The language fixes that a [NaN]
    from [comparefn] counts as [+0] and that the sort is stable; for a
    comparator that is a consistent ordering every stable sort returns the
    same array, and that array is computed here by stable insertion.  For
    other comparators the language leaves the order to the engine, and
    all that is stated of the result is that it rearranges the input. *)
Definition SortCompare {A} (comparefn : A → A → option Z) (x y : A) : Z :=
  default 0%Z (comparefn x y).

Fixpoint insertSorted {A} (comparefn : A → A → option Z) (x : A) (l : list A) : list A :=
  match l with
  | [] => [x]
  | y :: l' =>
      if decide (SortCompare comparefn x y ≤ 0)%Z then x :: y :: l'
      else y :: insertSorted comparefn x l'
  end.

Definition Array_sort {A} (comparefn : A → A → option Z) (l : list A) : list A :=
  foldr (insertSorted comparefn) [] l.

Definition sortTasksByPriority (getTime : string → option Z) (ts : list Task) : list Task :=
  Array_sort (comparePriority getTime) ts.

Definition sortTasksByDeadline (getTime : string → option Z) (ts : list Task) : list Task :=
  Array_sort (compareDeadline getTime) ts.

(** Strings are byte strings; [toLowerCase] and [trim] act on the ASCII
    letters and the ASCII white space, which is what they do in JavaScript
    on text without other letters or spaces. *)
Definition lowerChar (c : ascii) : ascii :=
  let n := nat_of_ascii c in
  if bool_decide (65 ≤ n ≤ 90)%nat then ascii_of_nat (n + 32) else c.

Fixpoint toLowerCase (s : string) : string :=
  match s with
  | EmptyString => EmptyString
  | String c s' => String (lowerChar c) (toLowerCase s')
  end.

(** [s.includes(q)] *)
Fixpoint includes (s q : string) : bool :=
  String.prefix q s ||
  match s with
  | EmptyString => false
  | String _ s' => includes s' q
  end.

(** The predicate of the [filter] in [searchTasks]. *)
Definition matchesQuery (lowercaseQuery : string) (task : Task) : bool :=
  includes (toLowerCase (description task)) lowercaseQuery
  || includes (toLowerCase (task_id task)) lowercaseQuery
  || (truthy (assignedTo task)
      && match assignedTo task with
         | Some a => includes (toLowerCase a) lowercaseQuery
         | None => false
         end).

Definition searchTasks (query : string) (st : State) : list Task :=
  let lowercaseQuery := toLowerCase query in
  filter (λ task, matchesQuery lowercaseQuery task = true) (tasks st).

(** ** The filter passes of [applyFiltersAndSorting] ([app/tasks/page.tsx]) *)

Inductive FilterOption :=
| filter_all | filter_active | filter_completed | filter_assigned | filter_unassigned.

(** The [switch (filterBy)]. *)
Definition applyStatusFilter (filterBy : FilterOption) (ts : list Task) : list Task :=
  match filterBy with
  | filter_active => filter (λ task, completed task = false) ts
  | filter_completed => filter (λ task, completed task = true) ts
  | filter_assigned => filter (λ task, assignedTo task ≠ None) ts
  | filter_unassigned => filter (λ task, assignedTo task = None) ts
  | filter_all => ts
  end.

(** [if (priorityFilter !== 'all') ...]; [None] is ['all']. *)
Definition applyPriorityFilter (priorityFilter : option Priority) (ts : list Task)
  : list Task :=
  match priorityFilter with
  | Some p => filter (λ task, priority task = p) ts
  | None => ts
  end.

(** ** The task form ([handleAddTask] of the assign page) *)

Definition isWhiteSpace (c : ascii) : bool :=
  let n := nat_of_ascii c in
  bool_decide (n = 32 ∨ 9 ≤ n ≤ 13)%nat.

Fixpoint trimStart (s : string) : string :=
  match s with
  | EmptyString => EmptyString
  | String c s' => if isWhiteSpace c then trimStart s' else s
  end.

Fixpoint trimEnd (s : string) : string :=
  match s with
  | EmptyString => EmptyString
  | String c s' =>
      match trimEnd s' with
      | EmptyString => if isWhiteSpace c then EmptyString else String c EmptyString
      | r => String c r
      end
  end.

Definition trim (s : string) : string := trimEnd (trimStart s).

(** What the form shows after a submit. *)
Inductive Shown :=
| ShowError (text : string)
| ShowCreated (task : Task)
| ShowCreatedAndAssigned (task : Task) (workerId : string).

Definition handleAddTask (getTime : string → option Z)
    (taskDescription : string) (taskPriority : Priority) (taskTimeEstimate : float)
    (taskDeadline assignToWorker now : string) (st : State) : Shown * State :=
  if String.eqb (trim taskDescription) "" then
    (ShowError "Task description is required", st)
  else if negb (validateDate getTime taskDeadline) then
    (ShowError "Please enter a valid deadline", st)
  else if taskTimeEstimate <=? 0 then
    (ShowError "Time estimate must be greater than 0", st)
  else
    match addTask (trim taskDescription) taskPriority taskTimeEstimate
                  taskDeadline now st with
    | Throw e => (ShowError (message e), st)
    | Ok (newTask, st1) =>
        if negb (String.eqb assignToWorker "") then
          match assignTaskToWorker (task_id newTask) assignToWorker st1 with
          | Ok st2 => (ShowCreatedAndAssigned newTask assignToWorker, st2)
          | Throw e => (ShowError (message e), st1)
          end
        else (ShowCreated newTask, st1)
    end.

(** Epoch milliseconds of the three dates used in the examples below, as
    [new Date(s).getTime()] gives them for date-only ISO strings. *)
Definition januaryDates (s : string) : option Z :=
  if String.eqb s "2024-01-01" then Some 1704067200000%Z
  else if String.eqb s "2024-01-05" then Some 1704412800000%Z
  else if String.eqb s "2024-01-10" then Some 1704844800000%Z
  else None.

(** ** Stores used in the examples *)

Definition cleanRoom : Task :=
  {| task_id := "T001"; description := "Clean Room 101"; priority := high;
     timeEstimate := 5; deadline := "2024-01-10"; assignedTo := None;
     createdAt := "2024-01-01T08:00:00.000Z"; completed := false |}.

Definition vacuumHallway : Task :=
  {| task_id := "T002"; description := "Vacuum Hallway"; priority := high;
     timeEstimate := 3; deadline := "2024-01-05"; assignedTo := None;
     createdAt := "2024-01-01T08:01:00.000Z"; completed := false |}.

Definition mopRoom : Task :=
  {| task_id := "T003"; description := "Mop Room 202"; priority := low;
     timeEstimate := 4; deadline := "2024-01-01"; assignedTo := None;
     createdAt := "2024-01-01T08:02:00.000Z"; completed := false |}.

Definition ann (hours : float) : Worker :=
  {| worker_id := "W001"; worker_name := "Ann"; availability := true;
     totalAssignedHours := hours |}.

Definition bob (hours : float) : Worker :=
  {| worker_id := "W002"; worker_name := "Bob"; availability := true;
     totalAssignedHours := hours |}.

Definition OpAddTaskOf (t : Task) : Op :=
  OpAddTask (description t) (priority t) (timeEstimate t) (deadline t) (createdAt t).

(** Two workers and three tasks, nothing assigned. *)
Definition freshStore : State :=
  run [OpAddWorker "Ann"; OpAddWorker "Bob";
       OpAddTaskOf cleanRoom; OpAddTaskOf vacuumHallway; OpAddTaskOf mopRoom]
      initialState.

(** The same, with "Clean Room 101" (5 hours) assigned to Ann. *)
Definition busyStore : State := run [OpAssign "T001" "W001"] freshStore.

(** The same, with "Vacuum Hallway" (3 hours) assigned to Bob as well. *)
Definition sharedStore : State := run [OpAssign "T002" "W002"] busyStore.

(** Three short tasks, of 0.5, 0.6 and 0.7 hours. *)
Definition wipeCounter : Task :=
  {| task_id := "T001"; description := "Wipe Counter"; priority := medium;
     timeEstimate := 5 / 10; deadline := "2024-01-05"; assignedTo := None;
     createdAt := "2024-01-01T09:00:00.000Z"; completed := false |}.

Definition emptyBins : Task :=
  {| task_id := "T002"; description := "Empty Bins"; priority := medium;
     timeEstimate := 6 / 10; deadline := "2024-01-05"; assignedTo := None;
     createdAt := "2024-01-01T09:01:00.000Z"; completed := false |}.

Definition waterPlants : Task :=
  {| task_id := "T003"; description := "Water Plants"; priority := medium;
     timeEstimate := 7 / 10; deadline := "2024-01-05"; assignedTo := None;
     createdAt := "2024-01-01T09:02:00.000Z"; completed := false |}.

(** One worker and the three short tasks, nothing assigned. *)
Definition shortTasksStore : State :=
  run [OpAddWorker "Ann";
       OpAddTaskOf wipeCounter; OpAddTaskOf emptyBins; OpAddTaskOf waterPlants]
      initialState.

(** The same, with the three tasks assigned to Ann one after the other. *)
Definition shortTasksAssigned : State :=
  run [OpAssign "T001" "W001"; OpAssign "T002" "W001"; OpAssign "T003" "W001"]
      shortTasksStore.

(** Ann with a full day: a task of 8 hours, assigned to her, and a task
    of 2^-50 hours. *)
Definition deepClean : Task :=
  {| task_id := "T001"; description := "Deep Clean"; priority := high;
     timeEstimate := 8; deadline := "2024-01-10"; assignedTo := None;
     createdAt := "2024-01-01T10:00:00.000Z"; completed := false |}.

Definition dustLamp : Task :=
  {| task_id := "T002"; description := "Dust Lamp"; priority := low;
     timeEstimate := 0x1p-50; deadline := "2024-01-10"; assignedTo := None;
     createdAt := "2024-01-01T10:01:00.000Z"; completed := false |}.

Definition fullDayStore : State :=
  run [OpAddWorker "Ann"; OpAddTaskOf deepClean; OpAddTaskOf dustLamp;
       OpAssign "T001" "W001"]
      initialState.

(** A high-priority task whose deadline is no date. *)
Definition washWindows : Task :=
  {| task_id := "T004"; description := "Wash Windows"; priority := high;
     timeEstimate := 2; deadline := "next week"; assignedTo := None;
     createdAt := "2024-01-01T08:03:00.000Z"; completed := false |}.

(** The relation the data model states between a worker's hours and the
    tasks that are bound to it and not completed. *)
Definition activeHoursMatch (st : State) : Prop :=
  ∀ w, w ∈ workers st → activeHours (worker_id w) (tasks st) = totalAssignedHours w.

(** ** Vocabulary of the query-layer properties *)

(** All deadlines of the list denote instants. *)
Definition validDeadlines (getTime : string → option Z) (ts : list Task) : Prop :=
  ∀ t, t ∈ ts → is_Some (getTime (deadline t)).

(** [a] may stand before [b]: heavier priority first, and among equal
    priorities the earlier deadline first. *)
Definition priorityOrder (getTime : string → option Z) (a b : Task) : Prop :=
  (PRIORITY_WEIGHTS (priority b) < PRIORITY_WEIGHTS (priority a))%Z
  ∨ (PRIORITY_WEIGHTS (priority a) = PRIORITY_WEIGHTS (priority b)
     ∧ ∃ x y, getTime (deadline a) = Some x ∧ getTime (deadline b) = Some y
              ∧ (x ≤ y)%Z).

(** Equal in both sort keys. *)
Definition sameKeys (getTime : string → option Z) (a b : Task) : Prop :=
  priority a = priority b ∧ getTime (deadline a) = getTime (deadline b).

(** [q] occurs in [field] when case is ignored. *)
Definition ciContains (field q : string) : Prop :=
  ∃ pre post, toLowerCase field = pre +:+ toLowerCase q +:+ post.

Definition matchesSomeField (q : string) (t : Task) : Prop :=
  ciContains (description t) q
  ∨ ciContains (task_id t) q
  ∨ ∃ a, assignedTo t = Some a ∧ ciContains a q.

(** Text of ASCII characters only, on which [toLowerCase] above is the
    function of the language. *)
Definition isAscii (s : string) : bool :=
  forallb (λ c, bool_decide (nat_of_ascii c < 128)%nat) (list_ascii_of_string s).

Definition asciiTask (t : Task) : Prop :=
  isAscii (description t) = true ∧ isAscii (task_id t) = true
  ∧ ∀ a, assignedTo t = Some a → isAscii a = true.

(** The sequence number an id was made from. *)
Definition parseSequence (id : string) : option nat :=
  match id with
  | String _ digits => Nat.of_uint <$> NilEmpty.uint_of_string digits
  | EmptyString => None
  end.

Global Instance sameKeys_dec getTime a b : Decision (sameKeys getTime a b).
Proof. unfold sameKeys. apply _. Defined.

(** ** Tactics *)

(** Closed decidable facts are settled by evaluation. *)
Ltac by_evaluation :=
  lazymatch goal with
  | |- ¬ ?P => apply (bool_decide_eq_false_1 P)
  | |- ?P → False => apply (bool_decide_eq_false_1 P)
  | |- ?P => apply (bool_decide_eq_true_1 P)
  end;
  vm_compute; reflexivity.

Ltac members H :=
  repeat (apply elem_of_cons in H as [->|H]);
  [..|by apply elem_of_nil in H].


(** ** Further functions of [lib/data.ts] *)

(** [[...workers]] and [[...tasks]]: copies of the arrays, same records. *)
Definition getWorkers (st : State) : list Worker := workers st.
Definition getTasks (st : State) : list Task := tasks st.

(** [\d] *)
Definition isDigit (c : ascii) : bool :=
  let n := nat_of_ascii c in bool_decide (48 ≤ n ≤ 57)%nat.

(** [/^W\d{3}$/.test(id)] and [/^T\d{3}$/.test(id)] *)
Definition validateWorkerId (id : string) : bool :=
  match id with
  | String p (String a (String b (String c EmptyString))) =>
      Ascii.eqb p "W" && isDigit a && isDigit b && isDigit c
  | _ => false
  end.

Definition validateTaskId (id : string) : bool :=
  match id with
  | String p (String a (String b (String c EmptyString))) =>
      Ascii.eqb p "T" && isDigit a && isDigit b && isDigit c
  | _ => false
  end.

(** *** Snapshots

    [saveData] stores the JSON text of the four module variables;
    [initializeData] reads the text back.  JSON text carries strings,
    booleans and the numbers [jsonNumber] accepts unchanged, and for such
    data a stored item is the data itself; what
    [initializeData] can find under the key is nothing (or the empty
    text), a text on which the [try] block throws, or an object whose
    four fields may each be missing or falsy. *)

(** The numbers JSON text carries unchanged: [NaN] and the infinities are
    written as [null], and [-0] as [0]. *)
Definition jsonNumber (x : float) : bool :=
  PrimFloat.is_finite x && negb (PrimFloat.Leibniz.eqb x neg_zero).

Definition jsonNumbers (st : State) : Prop :=
  (∀ w, w ∈ workers st → jsonNumber (totalAssignedHours w) = true)
  ∧ (∀ t, t ∈ tasks st → jsonNumber (timeEstimate t) = true).

Record WorkerManagementData := mkData {
  data_workers : option (list Worker);
  data_tasks : option (list Task);
  data_nextWorkerId : option nat;
  data_nextTaskId : option nat;
}.

Inductive Stored :=
| NoItem
| Malformed
| Parsed (parsed : WorkerManagementData).

Definition saveData (st : State) : WorkerManagementData :=
  {| data_workers := Some (workers st); data_tasks := Some (tasks st);
     data_nextWorkerId := Some (nextWorkerId st);
     data_nextTaskId := Some (nextTaskId st) |}.

(** [saveData] when the write can fail: [setItem data] tells whether
    [localStorage.setItem] takes the snapshot.  When it does not,
    [saveData] throws "Failed to save data". *)
Definition saveDataTo (setItem : WorkerManagementData → bool) (st : State)
  : Result unit :=
  if setItem (saveData st) then Ok () else Throw FailedToSaveData.

(** [addTask] with such a write: the store the call leaves behind, and
    the task it returns or the error it throws.  The task is pushed
    before the write is tried, so it is in the store either way. *)
Definition addTaskTo (setItem : WorkerManagementData → bool)
    (desc : string) (p : Priority) (estimate : float) (dl : string) (now : string)
    (st : State) : State * Result Task :=
  let id := taskIdOf (nextTaskId st) in
  let task := {| task_id := id; description := desc; priority := p;
                 timeEstimate := estimate; deadline := dl;
                 assignedTo := None; createdAt := now;
                 completed := false |} in
  let st' := {| workers := workers st;
                tasks := tasks st ++ [task];
                workerMap := workerMap st;
                nextWorkerId := nextWorkerId st;
                nextTaskId := S (nextTaskId st) |} in
  (st', match saveDataTo setItem st' with
        | Ok _ => Ok task
        | Throw e => Throw e
        end).

(** [workers.forEach(worker => workerMap.set(worker.id, worker))], the
    array being walked from position [j] on. *)
Fixpoint indexWorkers (j : nat) (ws : list Worker) (m : gmap string nat)
  : gmap string nat :=
  match ws with
  | [] => m
  | w :: ws' => indexWorkers (S j) ws' (<[worker_id w := j]> m)
  end.

(** [parsed.nextWorkerId || 1] *)
Definition orOne (n : option nat) : nat :=
  match n with
  | Some (S k) => S k
  | _ => 1
  end.

Definition initializeData (stored : Stored) (st : State) : State :=
  match stored with
  | NoItem => st
  | Malformed => initialState
  | Parsed parsed =>
      let ws := default [] (data_workers parsed) in
      {| workers := ws;
         tasks := default [] (data_tasks parsed);
         workerMap := indexWorkers 0 ws ∅;
         nextWorkerId := orOne (data_nextWorkerId parsed);
         nextTaskId := orOne (data_nextTaskId parsed) |}
  end.

(** *** CSV export

    [numberToString] stands for [Number.prototype.toString]. *)

Definition doubleQuote : string := String (ascii_of_nat 34) EmptyString.
Definition lineFeed : string := String (ascii_of_nat 10) EmptyString.

(** [cells.join(sep)] *)
Fixpoint join (sep : string) (cells : list string) : string :=
  match cells with
  | [] => EmptyString
  | [cell] => cell
  | cell :: rest => cell +:+ sep +:+ join sep rest
  end.

Definition priorityName (p : Priority) : string :=
  match p with high => "high" | medium => "medium" | low => "low" end.

Definition taskHeaders : list string :=
  ["ID"; "Description"; "Priority"; "Time Estimate"; "Deadline"; "Assigned To";
   "Status"; "Created At"].

Definition taskRow (numberToString : float → string) (task : Task) : list string :=
  [task_id task; description task; priorityName (priority task);
   numberToString (timeEstimate task); deadline task;
   (if truthy (assignedTo task) then default "" (assignedTo task) else "Unassigned");
   (if completed task then "Completed" else "Active");
   createdAt task].

(** [row.map(cell => `"${cell}"`).join(',')] *)
Definition csvLine (row : list string) : string :=
  join "," ((λ cell, doubleQuote +:+ cell +:+ doubleQuote) <$> row).

Definition exportTasksToCSV (numberToString : float → string) (st : State) : string :=
  join lineFeed (csvLine <$> (taskHeaders :: (taskRow numberToString <$> tasks st))).

Definition workerHeaders : list string :=
  ["ID"; "Name"; "Availability"; "Assigned Hours"; "Available Hours"].

(** [Math.max(a, b)]: [NaN] when a side is [NaN], and [+0] above [-0]. *)
Definition Math_max (a b : float) : float :=
  if PrimFloat.is_nan a || PrimFloat.is_nan b then nan
  else if a <? b then b
  else if b <? a then a
  else match classify a with NZero => b | _ => a end.

(** [Math.max(0, 8 - h)] *)
Definition availableHours (h : float) : float := Math_max 0 (8 - h).

Definition workerRow (numberToString : float → string) (worker : Worker) : list string :=
  [worker_id worker; worker_name worker;
   (if availability worker then "Available" else "Unavailable");
   numberToString (totalAssignedHours worker);
   numberToString (availableHours (totalAssignedHours worker))].

Definition exportWorkersToCSV (numberToString : float → string) (st : State) : string :=
  join lineFeed (csvLine <$> (workerHeaders :: (workerRow numberToString <$> workers st))).

Definition exportToCSV (numberToString : float → string) (st : State) : string :=
  exportTasksToCSV numberToString st.

(** ** The dashboard counters ([app/page.tsx]) *)

Definition activeTasks (ts : list Task) : list Task :=
  filter (λ task, completed task = false) ts.
Definition completedTasks (ts : list Task) : list Task :=
  filter (λ task, completed task = true) ts.
Definition totalWorkers (ws : list Worker) : nat := length ws.

(** The size of the [Set] of the owners of the unfinished tasks. *)
Definition workingWorkers (ts : list Task) : nat :=
  size (list_to_set
          (assignedTo
             <$> filter (λ task, truthy (assignedTo task) = true
                                 ∧ completed task = false) ts)
        : gset (option string)).

(** ** The whole of [applyFiltersAndSorting] ([app/tasks/page.tsx]) *)

Inductive SortOption := sort_priority | sort_deadline | sort_created | sort_none.

(** Newest first. *)
Definition compareCreated (getTime : string → option Z) (a b : Task) : option Z :=
  match getTime (createdAt b), getTime (createdAt a) with
  | Some x, Some y => Some (x - y)%Z
  | _, _ => None
  end.

(** The [switch (sortBy)]. *)
Definition applySorting (getTime : string → option Z) (sortBy : SortOption)
    (ts : list Task) : list Task :=
  match sortBy with
  | sort_priority => sortTasksByPriority getTime ts
  | sort_deadline => sortTasksByDeadline getTime ts
  | sort_created => Array_sort (compareCreated getTime) ts
  | sort_none => ts
  end.

(** [allTasks] is the copy of the task list the page took when it last
    loaded; the search reads the store itself. *)
Definition applyFiltersAndSorting (getTime : string → option Z) (st : State)
    (allTasks : list Task) (searchQuery : string) (sortBy : SortOption)
    (filterBy : FilterOption) (priorityFilter : option Priority) : list Task :=
  let found :=
    if negb (String.eqb (trim searchQuery) "")
    then searchTasks (trim searchQuery) st
    else allTasks in
  applySorting getTime sortBy
    (applyPriorityFilter priorityFilter (applyStatusFilter filterBy found)).

(** The list the filters of [applyFiltersAndSorting] start from. *)
Definition tasksToFilter (st : State) (allTasks : list Task) (searchQuery : string)
  : list Task :=
  if decide (trim searchQuery = "") then allTasks
  else searchTasks (trim searchQuery) st.

(** Vocabulary for the sort by deadline. *)
Definition deadlineOrder (getTime : string → option Z) (a b : Task) : Prop :=
  ∃ x y, getTime (deadline a) = Some x ∧ getTime (deadline b) = Some y ∧ (x ≤ y)%Z.

Definition sameDeadline (getTime : string → option Z) (a b : Task) : Prop :=
  getTime (deadline a) = getTime (deadline b).

Global Instance sameDeadline_dec getTime a b : Decision (sameDeadline getTime a b).
Proof. unfold sameDeadline. apply _. Defined.

(** The conditions the two filter passes test. *)
Definition passesStatus (filterBy : FilterOption) (task : Task) : Prop :=
  match filterBy with
  | filter_all => True
  | filter_active => completed task = false
  | filter_completed => completed task = true
  | filter_assigned => assignedTo task ≠ None
  | filter_unassigned => assignedTo task = None
  end.

Definition passesPriority (priorityFilter : option Priority) (task : Task) : Prop :=
  match priorityFilter with
  | Some p => priority task = p
  | None => True
  end.

Global Instance passesStatus_dec filterBy task : Decision (passesStatus filterBy task).
Proof. destruct filterBy; simpl; apply _. Defined.

Global Instance passesPriority_dec priorityFilter task :
  Decision (passesPriority priorityFilter task).
Proof. destruct priorityFilter; simpl; apply _. Defined.

(** A store saved with a duplicated worker id, as a snapshot may hold. *)
Definition twinSnapshot : WorkerManagementData :=
  {| data_workers := Some [ann 2; bob 0; set_totalAssignedHours 7 (ann 0)];
     data_tasks := None; data_nextWorkerId := Some 0%nat; data_nextTaskId := None |}.

(** [freshStore] before its third task was added. *)
Definition twoTaskStore : State :=
  run [OpAddWorker "Ann"; OpAddWorker "Bob";
       OpAddTaskOf cleanRoom; OpAddTaskOf vacuumHallway]
      initialState.

(** The ten characters [\d] accepts. *)
Definition digitChars : list ascii :=
  ["0"; "1"; "2"; "3"; "4"; "5"; "6"; "7"; "8"; "9"]%char.

(** The three-character suffixes of a prefix letter that parse to a
    number below 1000. *)
Definition threeDigitsBelow1000 (a b c : ascii) : bool :=
  match parseSequence (String "W" (String a (String b (String c EmptyString)))) with
  | Some k => bool_decide (k < 1000)%nat
  | None => false
  end.

(** * Properties *)

(** ** Comparisons of numbers *)

Lemma SFcompare_swap f1 f2 : SFcompare f2 f1 = CompOpp <$> SFcompare f1 f2.
Proof.
  destruct f1 as [s1|s1| |s1 m1 e1], f2 as [s2|s2| |s2 m2 e2]; simpl;
    try done; try (by destruct s1); try (by destruct s2);
    try (by destruct s1, s2).
  rewrite (Z.compare_antisym e1 e2).
  destruct s1, s2; simpl; try done;
    destruct (e1 ?= e2)%Z; simpl; try done;
    change (PosDef.Pos.compare_cont Eq m2 m1) with (Pos.compare m2 m1);
    change (PosDef.Pos.compare_cont Eq m1 m2) with (Pos.compare m1 m2);
    rewrite (Pos.compare_antisym m1 m2); by destruct (Pos.compare m1 m2).
Qed.



(** [x <= y] excludes [y < x], [x < y] excludes [y <= x], and of two
    numbers that are not [NaN] one is [<=] the other. *)
Lemma leb_not_ltb (x y : float) : x ≤ y → (y <? x) = false.
Proof.
  rewrite leb_spec, ltb_spec. unfold SFleb, SFltb.
  rewrite (SFcompare_swap (Prim2SF x) (Prim2SF y)).
  by destruct (SFcompare (Prim2SF x) (Prim2SF y)) as [[]|].
Qed.

Lemma ltb_not_leb (x y : float) : x < y → (y <=? x) = false.
Proof.
  rewrite leb_spec, ltb_spec. unfold SFleb, SFltb.
  rewrite (SFcompare_swap (Prim2SF x) (Prim2SF y)).
  by destruct (SFcompare (Prim2SF x) (Prim2SF y)) as [[]|].
Qed.


(** ** Arithmetic on half hours

    Settled by evaluating the operations on every pair of the range. *)

Example halfHours_values :
  halfHours 0 = 0 ∧ halfHours 1 = 0.5 ∧ halfHours 3 = 1.5
  ∧ halfHours 16 = MAX_WORK_HOURS_PER_DAY ∧ halfHours 32 = 16.
Proof. by split_and!. Qed.

Lemma forall_below (n : nat) (P : nat → bool) :
  forallb P (seq 0 n) = true → ∀ k, (k < n)%nat → P k = true.
Proof.
  intros Hall k Hk. rewrite forallb_forall in Hall. apply Hall, in_seq. lia.
Qed.

Lemma halfHours_add a b :
  (a ≤ 16)%nat → (b ≤ 16)%nat → halfHours a + halfHours b = halfHours (a + b).
Proof.
  intros Ha Hb.
  assert (forallb (λ a, forallb (λ b,
            bool_decide (halfHours a + halfHours b = halfHours (a + b)))
            (seq 0 17)) (seq 0 17) = true) as Hall by (vm_compute; reflexivity).
  apply (forall_below 17) with (k := a) in Hall; [|lia].
  apply (forall_below 17) with (k := b) in Hall; [|lia].
  by apply bool_decide_eq_true_1 in Hall.
Qed.

Lemma halfHours_sub a b :
  (a ≤ 32)%nat → (b ≤ a)%nat → halfHours a - halfHours b = halfHours (a - b).
Proof.
  intros Ha Hb.
  assert (forallb (λ a, forallb (λ b,
            bool_decide (halfHours a - halfHours b = halfHours (a - b)))
            (seq 0 (S a))) (seq 0 33) = true) as Hall by (vm_compute; reflexivity).
  apply (forall_below 33) with (k := a) in Hall; [|lia].
  apply (forall_below (S a)) with (k := b) in Hall; [|lia].
  by apply bool_decide_eq_true_1 in Hall.
Qed.

Lemma halfHours_exceeds n :
  (n ≤ 32)%nat → (MAX_WORK_HOURS_PER_DAY <? halfHours n) = bool_decide (16 < n)%nat.
Proof.
  intros Hn.
  assert (forallb (λ n, bool_decide
            ((MAX_WORK_HOURS_PER_DAY <? halfHours n) = bool_decide (16 < n)%nat))
            (seq 0 33) = true) as Hall by (vm_compute; reflexivity).
  apply (forall_below 33) with (k := n) in Hall; [|lia].
  by apply bool_decide_eq_true_1 in Hall.
Qed.

Lemma halfHours_range n :
  (n ≤ 16)%nat →
  0 ≤ halfHours n ∧ halfHours n ≤ MAX_WORK_HOURS_PER_DAY
  ∧ (halfHours n <? MAX_WORK_HOURS_PER_DAY) = bool_decide (n < 16)%nat
  ∧ (0 <? halfHours n) = bool_decide (0 < n)%nat
  ∧ halfHourUnits (halfHours n) = Some n.
Proof.
  intros Hn.
  assert (forallb (λ n, bool_decide
            (0 ≤ halfHours n ∧ halfHours n ≤ MAX_WORK_HOURS_PER_DAY
             ∧ (halfHours n <? MAX_WORK_HOURS_PER_DAY) = bool_decide (n < 16)%nat
             ∧ (0 <? halfHours n) = bool_decide (0 < n)%nat
             ∧ halfHourUnits (halfHours n) = Some n))
            (seq 0 17) = true) as Hall by (vm_compute; reflexivity).
  apply (forall_below 17) with (k := n) in Hall; [|lia].
  by apply bool_decide_eq_true_1 in Hall.
Qed.

Lemma halfHours_inj a b :
  (a ≤ 32)%nat → (b ≤ 32)%nat → halfHours a = halfHours b → a = b.
Proof.
  intros Ha Hb Heq.
  assert (forallb (λ a, forallb (λ b,
            bool_decide (bool_decide (halfHours a = halfHours b) = bool_decide (a = b)))
            (seq 0 33)) (seq 0 33) = true) as Hall by (vm_compute; reflexivity).
  apply (forall_below 33) with (k := a) in Hall; [|lia].
  apply (forall_below 33) with (k := b) in Hall; [|lia].
  apply bool_decide_eq_true_1 in Hall.
  rewrite (bool_decide_eq_true_2 _ Heq) in Hall.
  symmetry in Hall. by apply bool_decide_eq_true_1 in Hall.
Qed.

(** ** Records *)

Lemma set_totalAssignedHours_same w :
  set_totalAssignedHours (totalAssignedHours w) w = w.
Proof. by destruct w. Qed.

Lemma afterAssign_id task target w :
  worker_id (afterAssign task target w) = worker_id w.
Proof. unfold afterAssign. by repeat case_decide. Qed.

Lemma afterUnassign_id task w : worker_id (afterUnassign task w) = worker_id w.
Proof. unfold afterUnassign. by case_decide. Qed.

(** ** Lookups in a consistent store *)

Section lookups.
Context (st : State) (Hcon : consistent st).

Lemma findTask_Some taskId i t :
    findTask st taskId = Some (i, t) → tasks st !! i = Some t ∧ task_id t = taskId.
  Proof. unfold findTask. rewrite list_find_Some. by intros (? & ? & _). Qed.

Lemma findTask_lookup i t :
    tasks st !! i = Some t → findTask st (task_id t) = Some (i, t).
  Proof using Hcon.
    intros Hi. unfold findTask. apply list_find_Some. split_and!; [done..|].
    intros j u Hj Hlt Heq.
    assert (j = i); [|lia].
    eapply NoDup_lookup; [apply (con_task_ids _ Hcon)|..].
    - by rewrite list_lookup_fmap, Hj.
    - by rewrite list_lookup_fmap, Hi, Heq.
  Qed.

Lemma workerMap_lookup j w :
    workers st !! j = Some w → workerMap st !! worker_id w = Some j.
  Proof using Hcon.
    intros Hj. apply (con_map _ Hcon). by rewrite list_lookup_fmap, Hj.
  Qed.

Lemma workerMap_get_lookup j w :
    workers st !! j = Some w → workerMap_get st (worker_id w) = Some (j, w).
  Proof using Hcon.
    intros Hj. unfold workerMap_get. by rewrite (workerMap_lookup j w Hj), Hj.
  Qed.

Lemma workerMap_get_Some id j w :
    workerMap_get st id = Some (j, w) →
    workerMap st !! id = Some j ∧ workers st !! j = Some w ∧ worker_id w = id.
  Proof using Hcon.
    unfold workerMap_get. destruct (workerMap st !! id) as [k|] eqn:Hk; [|done].
    destruct (workers st !! k) as [w'|] eqn:Hw; [|done].
    intros [= -> ->]. split_and!; [done..|].
    apply (con_map _ Hcon) in Hk. rewrite list_lookup_fmap, Hw in Hk. by simplify_eq/=.
  Qed.

  (** Two positions holding the same id are the same position. *)
Lemma worker_position j k w w' :
    workers st !! j = Some w → workers st !! k = Some w' →
    worker_id w = worker_id w' → j = k.
  Proof using Hcon.
    intros Hj Hk Heq. apply workerMap_lookup in Hj, Hk. rewrite Heq in Hj. congruence.
  Qed.

Lemma owner_truthy t wid :
    t ∈ tasks st → assignedTo t = Some wid → truthy (Some wid) = true.
  Proof using Hcon.
    intros Ht Ha. pose proof (con_owner _ Hcon t wid Ht Ha) as Hin.
    apply (con_worker_ids _ Hcon) in Hin. simpl.
    apply negb_true_iff, String.eqb_neq. done.
  Qed.

Lemma owner_registered t wid :
    t ∈ tasks st → assignedTo t = Some wid →
    ∃ k w, workerMap st !! wid = Some k ∧ workers st !! k = Some w ∧ worker_id w = wid.
  Proof using Hcon.
    intros Ht Ha. pose proof (con_owner _ Hcon t wid Ht Ha) as Hin.
    apply list_elem_of_fmap in Hin as (w & -> & [k Hk]%list_elem_of_lookup).
    exists k, w. split_and!; [|done..]. by apply workerMap_lookup.
  Qed.

  (** The record a position holds once the previous owner of [task] has
      been credited. *)
Lemma creditPrevious_lookup task j w :
    task ∈ tasks st → workers st !! j = Some w →
    creditPrevious st task !! j = Some (afterUnassign task w).
  Proof using Hcon.
    intros Ht Hj. unfold creditPrevious, afterUnassign.
    destruct (assignedTo task) as [prev|] eqn:Ha.
    - rewrite (owner_truthy task prev Ht Ha).
      destruct (owner_registered task prev Ht Ha) as (k & w' & Hk & Hw' & Hid).
      rewrite Hk. destruct (decide (k = j)) as [->|Hne].
      + rewrite list_lookup_alter_eq, Hj. simplify_eq/=.
        by rewrite decide_True.
      + rewrite list_lookup_alter_ne by done. rewrite Hj.
        rewrite decide_False; [done|].
        intros [= Heq]. apply Hne. eapply worker_position; eauto. congruence.
    - rewrite Hj. by rewrite decide_False.
  Qed.
End lookups.

(** ** Identifiers are never reused *)

Lemma uint_of_string_zeros k s :
  NilEmpty.uint_of_string (repeat_char "0" k +:+ s)
  = Nat.iter k (fmap Decimal.D0) (NilEmpty.uint_of_string s).
Proof.
  induction k as [|k IH]; simpl; [done|].
  change (String "0" (repeat_char "0" k) +:+ s)
    with (String "0" (repeat_char "0" k +:+ s)).
  simpl. rewrite IH. by destruct (Nat.iter k _ _).
Qed.

Lemma of_uint_zeros k d :
  Nat.of_uint <$> Nat.iter k (fmap Decimal.D0) (Some d) = Some (Nat.of_uint d).
Proof.
  induction k as [|k IH]; simpl; [done|].
  destruct (Nat.iter k _ _) as [d'|]; [|done]. simpl in *.
  by change (Nat.of_uint (Decimal.D0 d')) with (Nat.of_uint d').
Qed.

Lemma parseSequence_padded c n :
  parseSequence (String c (padStart 3 "0" (String_of_nat n))) = Some n.
Proof.
  unfold parseSequence, padStart, String_of_nat.
  rewrite uint_of_string_zeros, NilEmpty.usu, of_uint_zeros.
  by rewrite DecimalNat.Unsigned.of_to.
Qed.

Lemma workerIdOf_inj n m : workerIdOf n = workerIdOf m → n = m.
Proof.
  intros H. apply (f_equal parseSequence) in H. unfold workerIdOf in H.
  change ("W" +:+ ?s) with (String "W" s) in H.
  rewrite !parseSequence_padded in H. congruence.
Qed.

Lemma taskIdOf_inj n m : taskIdOf n = taskIdOf m → n = m.
Proof.
  intros H. apply (f_equal parseSequence) in H. unfold taskIdOf in H.
  change ("T" +:+ ?s) with (String "T" s) in H.
  rewrite !parseSequence_padded in H. congruence.
Qed.

Lemma workerIdOf_nonempty n : workerIdOf n ≠ "".
Proof. done. Qed.

Example identifiers_padded :
  workerIdOf 1 = "W001" ∧ taskIdOf 14 = "T014" ∧ taskIdOf 1234 = "T1234".
Proof. done. Qed.

(** ** Each operation keeps the store consistent *)

Lemma fmap_alter_same {A B} (f : A → B) (g : A → A) j (l : list A) :
  (∀ x, f (g x) = f x) → f <$> alter g j l = f <$> l.
Proof.
  intros Hfg. rewrite (list_fmap_alter f g id).
  - apply list_alter_id. done.
  - apply Forall_forall. intros x _. apply Hfg.
Qed.

Lemma creditPrevious_ids st task :
  worker_id <$> creditPrevious st task = worker_id <$> workers st.
Proof.
  unfold creditPrevious. destruct (assignedTo task); [|done].
  destruct (truthy _); [|done]. destruct (workerMap st !! _); [|done].
  by apply fmap_alter_same.
Qed.

Lemma consistent_update st ws' ts' :
  consistent st →
  worker_id <$> ws' = worker_id <$> workers st →
  task_id <$> ts' = task_id <$> tasks st →
  (∀ t wid, t ∈ ts' → assignedTo t = Some wid → wid ∈ worker_id <$> workers st) →
  consistent (with_tasks ts' (with_workers ws' st)).
Proof.
  intros Hcon Hws Hts Hown. split; simpl.
  - rewrite Hws. apply (con_map _ Hcon).
  - rewrite Hws. apply (con_worker_ids _ Hcon).
  - rewrite Hts. apply (con_task_ids _ Hcon).
  - by rewrite Hws.
Qed.

Lemma issued_update st ws' ts' :
  issued st →
  worker_id <$> ws' = worker_id <$> workers st →
  task_id <$> ts' = task_id <$> tasks st →
  issued (with_tasks ts' (with_workers ws' st)).
Proof.
  intros [Hw Ht] Hws Hts. split; simpl.
  - by rewrite Hws.
  - by rewrite Hts.
Qed.

Lemma insert_task_ids (ts : list Task) i t t' :
  ts !! i = Some t → task_id t' = task_id t →
  task_id <$> <[i := t']> ts = task_id <$> ts.
Proof.
  intros Hi Hid. rewrite list_fmap_insert, Hid.
  apply list_insert_id. by rewrite list_lookup_fmap, Hi.
Qed.

Lemma elem_of_insert_task (ts : list Task) i t' u :
  u ∈ <[i := t']> ts → u = t' ∨ u ∈ ts.
Proof.
  intros [k Hk]%list_elem_of_lookup.
  destruct (decide (i = k)) as [->|Hne].
  - destruct (decide (k < length ts)%nat).
    + rewrite list_lookup_insert_eq in Hk by done. left. congruence.
    + rewrite list_insert_ge in Hk by lia. right. by eapply list_elem_of_lookup_2.
  - rewrite list_lookup_insert_ne in Hk by done. right.
    by eapply list_elem_of_lookup_2.
Qed.

Lemma with_workers_same st : with_workers (workers st) st = st.
Proof. by destruct st. Qed.

Section engine.
Context (st : State) (Hcon : consistent st).

  (** The workers' array after a successful [assignTaskToWorker]. *)
Lemma assign_workers_lookup task j worker k w :
    task ∈ tasks st → workers st !! j = Some worker → workers st !! k = Some w →
    alter (add_hours (timeEstimate task)) j (creditPrevious st task) !! k
    = Some (afterAssign task (worker_id worker) w).
  Proof using Hcon.
    intros Ht Hj Hk. unfold afterAssign. fold (afterUnassign task w).
    destruct (decide (j = k)) as [->|Hne].
    - rewrite list_lookup_alter_eq, (creditPrevious_lookup st Hcon task k w) by done.
      simplify_eq/=. by rewrite decide_True.
    - rewrite list_lookup_alter_ne, (creditPrevious_lookup st Hcon task k w) by done.
      rewrite decide_False; [done|].
      intros Heq. apply Hne. by eapply (worker_position st Hcon).
  Qed.

Lemma lookup_same_ids (ws' : list Worker) k w' :
    worker_id <$> ws' = worker_id <$> workers st →
    ws' !! k = Some w' → ∃ w, workers st !! k = Some w.
  Proof.
    intros Hids Hk. apply lookup_lt_is_Some.
    rewrite <-(length_fmap worker_id), <-Hids, length_fmap.
    by eapply lookup_lt_Some.
  Qed.

Lemma assign_Ok taskId workerId st' :
    assignTaskToWorker taskId workerId st = Ok st' →
    ∃ i task j worker,
      tasks st !! i = Some task ∧ task_id task = taskId ∧
      workers st !! j = Some worker ∧ worker_id worker = workerId ∧
      availability worker = true ∧
      (MAX_WORK_HOURS_PER_DAY <? totalAssignedHours worker + timeEstimate task) = false ∧
      st' = with_tasks (<[i := set_assignedTo (Some workerId) task]> (tasks st))
              (with_workers
                 (alter (add_hours (timeEstimate task)) j (creditPrevious st task)) st).
  Proof using Hcon.
    unfold assignTaskToWorker.
    destruct (findTask st taskId) as [[i task]|] eqn:Hf; [|done].
    destruct (workerMap_get st workerId) as [[j worker]|] eqn:Hg; [|done].
    destruct (availability worker) eqn:Hav; [|done]. simpl.
    destruct (_ <? _) eqn:Hcap; [done|]. intros [= <-].
    apply findTask_Some in Hf as [Hi Hid].
    apply (workerMap_get_Some st Hcon) in Hg as (_ & Hj & Hwid).
    by exists i, task, j, worker.
  Qed.

Lemma assign_consistent taskId workerId st' :
    assignTaskToWorker taskId workerId st = Ok st' → consistent st'.
  Proof using Hcon.
    intros (i & task & j & worker & Hi & Hid & Hj & Hwid & _ & _ & ->)%assign_Ok.
    assert (task ∈ tasks st) as Ht by by eapply list_elem_of_lookup_2.
    assert (worker_id <$> alter (add_hours (timeEstimate task)) j (creditPrevious st task)
            = worker_id <$> workers st) as Hids.
    { rewrite fmap_alter_same by done. apply creditPrevious_ids. }
    apply consistent_update; [done|done|by eapply insert_task_ids|].
    intros u wid [->|Hu]%elem_of_insert_task Ha.
    - simpl in Ha. simplify_eq. apply list_elem_of_fmap. exists worker.
      split; [done|]. by eapply list_elem_of_lookup_2.
    - by eapply (con_owner _ Hcon).
  Qed.

Lemma unassign_Ok taskId st' :
    unassignTask taskId st = Ok st' →
    ∃ i task,
      tasks st !! i = Some task ∧ task_id task = taskId ∧
      ((assignedTo task = None ∧ st' = st) ∨
       (assignedTo task ≠ None ∧
        st' = with_tasks (<[i := set_assignedTo None task]> (tasks st))
                (with_workers (creditPrevious st task) st))).
  Proof using Hcon.
    unfold unassignTask.
    destruct (findTask st taskId) as [[i task]|] eqn:Hf; [|done].
    apply findTask_Some in Hf as [Hi Hid].
    assert (task ∈ tasks st) as Ht by by eapply list_elem_of_lookup_2.
    destruct (assignedTo task) as [wid|] eqn:Ha.
    - rewrite (owner_truthy st Hcon task wid) by done. intros [= <-].
      exists i, task. split_and!; [done..|]. right. by rewrite Ha.
    - simpl. intros [= <-]. exists i, task. split_and!; [done..|]. by left.
  Qed.

Lemma unassign_consistent taskId st' :
    unassignTask taskId st = Ok st' → consistent st'.
  Proof using Hcon.
    intros (i & task & Hi & Hid & [[_ ->]|[Ha ->]])%unassign_Ok; [done|].
    assert (task ∈ tasks st) as Ht by by eapply list_elem_of_lookup_2.
    apply consistent_update;
      [done|apply creditPrevious_ids|by eapply insert_task_ids|].
    intros u wid [->|Hu]%elem_of_insert_task Hu'; [done|].
    by eapply (con_owner _ Hcon).
  Qed.

Lemma complete_Ok taskId st' :
    completeTask taskId st = Ok st' →
    ∃ i task,
      tasks st !! i = Some task ∧ task_id task = taskId ∧
      st' = with_tasks (<[i := set_completed true task]> (tasks st)) st.
  Proof.
    unfold completeTask.
    destruct (findTask st taskId) as [[i task]|] eqn:Hf; [|done].
    apply findTask_Some in Hf as [Hi Hid]. intros [= <-]. by exists i, task.
  Qed.

Lemma complete_consistent taskId st' :
    completeTask taskId st = Ok st' → consistent st'.
  Proof using Hcon.
    intros (i & task & Hi & Hid & ->)%complete_Ok.
    rewrite <-(with_workers_same st) at 2.
    apply consistent_update; [done|done|by eapply insert_task_ids|].
    intros u wid [->|Hu]%elem_of_insert_task Hu'.
    - apply (con_owner _ Hcon task); [by eapply list_elem_of_lookup_2 | exact Hu'].
    - by eapply (con_owner _ Hcon).
  Qed.
End engine.

(** ** Registry and task store operations keep the store well formed *)

Lemma addWorker_fresh st :
  issued st → workerIdOf (nextWorkerId st) ∉ worker_id <$> workers st.
Proof.
  intros Hiss Hin. apply (iss_workers _ Hiss) in Hin as (n & Hlt & Heq).
  apply workerIdOf_inj in Heq. lia.
Qed.

Lemma addTask_fresh st :
  issued st → taskIdOf (nextTaskId st) ∉ task_id <$> tasks st.
Proof.
  intros Hiss Hin. apply (iss_tasks _ Hiss) in Hin as (n & Hlt & Heq).
  apply taskIdOf_inj in Heq. lia.
Qed.

Lemma addWorker_wf name st : wf st → wf (addWorker name st).2.
Proof.
  intros [Hcon Hiss]. pose proof (addWorker_fresh st Hiss) as Hfresh.
  set (newId := workerIdOf (nextWorkerId st)) in *.
  split; split; simpl; rewrite ?fmap_app; simpl; fold newId.
  - intros id j. destruct (decide (id = newId)) as [->|Hne].
    + rewrite lookup_insert_eq. split.
      * intros [= <-]. rewrite <-(length_fmap worker_id). by apply list_lookup_middle.
      * intros Hj. apply lookup_app_Some in Hj as [Hj|[Hge Hj]].
        -- destruct Hfresh. by eapply list_elem_of_lookup_2.
        -- rewrite length_fmap in Hge, Hj.
           apply list_lookup_singleton_Some in Hj as [? _]. f_equal. lia.
    + rewrite lookup_insert_ne by done. rewrite (con_map _ Hcon). split.
      * apply lookup_app_l_Some.
      * intros Hj. apply lookup_app_Some in Hj as [Hj|[_ Hj]]; [done|].
        apply list_lookup_singleton_Some in Hj as [_ ?]. congruence.
  - intros id [Hin|Hin]%elem_of_app.
    + by apply (con_worker_ids _ Hcon).
    + apply list_elem_of_singleton in Hin as ->. apply workerIdOf_nonempty.
  - apply (con_task_ids _ Hcon).
  - intros t wid Ht Ha. apply elem_of_app. left. by eapply (con_owner _ Hcon).
  - intros id [Hin|Hin]%elem_of_app.
    + apply (iss_workers _ Hiss) in Hin as (n & Hlt & ->). exists n. split; [lia|done].
    + apply list_elem_of_singleton in Hin as ->. exists (nextWorkerId st).
      split; [lia|done].
  - apply (iss_tasks _ Hiss).
Qed.

Lemma addTask_wf desc p estimate dl now st task st' :
  wf st → addTask desc p estimate dl now st = Ok (task, st') → wf st'.
Proof.
  intros [Hcon Hiss] [= <- <-]. pose proof (addTask_fresh st Hiss) as Hfresh.
  set (newId := taskIdOf (nextTaskId st)) in *.
  split; split; simpl; rewrite ?fmap_app; simpl; fold newId.
  - apply (con_map _ Hcon).
  - apply (con_worker_ids _ Hcon).
  - apply NoDup_app. split_and!.
    + apply (con_task_ids _ Hcon).
    + intros id Hin ->%list_elem_of_singleton. done.
    + apply NoDup_singleton.
  - intros t wid [Hin|Hin]%elem_of_app Ha.
    + by eapply (con_owner _ Hcon).
    + apply list_elem_of_singleton in Hin as ->. done.
  - apply (iss_workers _ Hiss).
  - intros id [Hin|Hin]%elem_of_app.
    + apply (iss_tasks _ Hiss) in Hin as (n & Hlt & ->). exists n. split; [lia|done].
    + apply list_elem_of_singleton in Hin as ->. exists (nextTaskId st).
      split; [lia|done].
Qed.

Lemma elem_of_alter_worker (f : Worker → Worker) j (ws : list Worker) w' :
  w' ∈ alter f j ws → w' ∈ ws ∨ ∃ w, w ∈ ws ∧ w' = f w.
Proof.
  intros [k Hk]%list_elem_of_lookup. destruct (decide (j = k)) as [->|Hne].
  - rewrite list_lookup_alter_eq in Hk. destruct (ws !! k) as [w|] eqn:Hw; [|done].
    right. exists w. split; [by eapply list_elem_of_lookup_2|]. by simplify_eq/=.
  - rewrite list_lookup_alter_ne in Hk by done. left. by eapply list_elem_of_lookup_2.
Qed.

Lemma with_tasks_same st : with_tasks (tasks st) st = st.
Proof. by destruct st. Qed.

Lemma updateWorkerAvailability_consistent id b st st' :
  consistent st → updateWorkerAvailability id b st = Ok st' → consistent st'.
Proof.
  intros Hcon. unfold updateWorkerAvailability.
  destruct (workerMap_get st id) as [[j w]|]; [|done]. intros [= <-].
  rewrite <-(with_tasks_same (with_workers _ st)). simpl.
  apply consistent_update; [done|by apply fmap_alter_same|done|apply (con_owner _ Hcon)].
Qed.

Lemma updateWorkerAvailability_ids id b st st' :
  updateWorkerAvailability id b st = Ok st' →
  worker_id <$> workers st' = worker_id <$> workers st ∧ tasks st' = tasks st
  ∧ nextWorkerId st' = nextWorkerId st ∧ nextTaskId st' = nextTaskId st.
Proof.
  unfold updateWorkerAvailability.
  destruct (workerMap_get st id) as [[j w]|]; [|done]. intros [= <-]. simpl.
  split_and!; [|done..]. by apply fmap_alter_same.
Qed.

(** The engine mutators leave ids and counters alone. *)
Lemma issued_same_ids st st' :
  issued st →
  worker_id <$> workers st' = worker_id <$> workers st →
  task_id <$> tasks st' = task_id <$> tasks st →
  nextWorkerId st' = nextWorkerId st → nextTaskId st' = nextTaskId st →
  issued st'.
Proof.
  intros [Hw Ht] Hws Hts Hnw Hnt. split.
  - rewrite Hws, Hnw. apply Hw.
  - rewrite Hts, Hnt. apply Ht.
Qed.

Lemma step_wf o st : wf st → wf (step o st).
Proof.
  intros Hwf. pose proof Hwf as [Hcon Hiss].
  destruct o as [name|id b|desc p estimate dl now|taskId workerId|taskId|taskId]; simpl.
  - by apply addWorker_wf.
  - destruct (updateWorkerAvailability id b st) as [st'|] eqn:Hop; [|done]. simpl.
    split; [by eapply updateWorkerAvailability_consistent|].
    apply updateWorkerAvailability_ids in Hop as (? & Hts & ? & ?).
    apply (issued_same_ids st); [done..|by rewrite Hts|done|done].
  - destruct (addTask desc p estimate dl now st) as [[task st']|] eqn:Hop; [|done].
    by eapply addTask_wf.
  - destruct (assignTaskToWorker taskId workerId st) as [st'|] eqn:Hop; [|done]. simpl.
    split; [by eapply assign_consistent|].
    apply (assign_Ok st Hcon) in Hop
      as (i & task & j & worker & Hi & Hid & _ & _ & _ & _ & ->).
    apply issued_update; [done| |by eapply insert_task_ids].
    rewrite fmap_alter_same by done. apply creditPrevious_ids.
  - destruct (unassignTask taskId st) as [st'|] eqn:Hop; [|done]. simpl.
    split; [by eapply unassign_consistent|].
    apply (unassign_Ok st Hcon) in Hop as (i & task & Hi & Hid & [[_ ->]|[_ ->]]);
      [done|].
    apply issued_update; [done|apply creditPrevious_ids|by eapply insert_task_ids].
  - destruct (completeTask taskId st) as [st'|] eqn:Hop; [|done]. simpl.
    split; [by eapply complete_consistent|].
    apply complete_Ok in Hop as (i & task & Hi & Hid & ->).
    rewrite <-(with_workers_same st) at 2.
    apply issued_update; [done|done|by eapply insert_task_ids].
Qed.

Lemma initialState_wf : wf initialState.
Proof.
  split; split; simpl.
  - intros id j. rewrite lookup_empty. split; [done|]. by rewrite lookup_nil.
  - intros id Hin. by apply elem_of_nil in Hin.
  - apply NoDup_nil_2.
  - intros t wid Hin. by apply elem_of_nil in Hin.
  - intros id Hin. by apply elem_of_nil in Hin.
  - intros id Hin. by apply elem_of_nil in Hin.
Qed.

Lemma run_snoc ops o st : run (ops ++ [o]) st = step o (run ops st).
Proof. unfold run. by rewrite foldl_app. Qed.

Lemma run_wf ops st : wf st → wf (run ops st).
Proof.
  intros Hwf. induction ops as [|o ops IH] using rev_ind; [done|].
  rewrite run_snoc. by apply step_wf.
Qed.

(** Every store built from the empty one by the module's operations. *)
Lemma reachable_wf ops : wf (run ops initialState).
Proof. apply run_wf, initialState_wf. Qed.

(** ** Evaluation on the records of a consistent store *)

Lemma assign_eval st i t j w :
  consistent st → tasks st !! i = Some t → workers st !! j = Some w →
  assignTaskToWorker (task_id t) (worker_id w) st
  = if negb (availability w) then Throw (WorkerNotAvailable (worker_name w))
    else if MAX_WORK_HOURS_PER_DAY <? totalAssignedHours w + timeEstimate t
    then Throw (WouldExceedMaximumHours (worker_name w))
    else Ok (with_tasks (<[i := set_assignedTo (Some (worker_id w)) t]> (tasks st))
               (with_workers
                  (alter (add_hours (timeEstimate t)) j (creditPrevious st t)) st)).
Proof.
  intros Hcon Hi Hj. unfold assignTaskToWorker.
  by rewrite (findTask_lookup st Hcon i t Hi), (workerMap_get_lookup st Hcon j w Hj).
Qed.

Lemma complete_eval st i t :
  consistent st → tasks st !! i = Some t →
  completeTask (task_id t) st
  = Ok (with_tasks (<[i := set_completed true t]> (tasks st)) st).
Proof.
  intros Hcon Hi. unfold completeTask. by rewrite (findTask_lookup st Hcon i t Hi).
Qed.

(** A worker's record after a successful assignment of [t] to [b]. *)
Lemma assign_getWorkerById st t b st' w :
  consistent st → t ∈ tasks st → b ∈ workers st → w ∈ workers st →
  assignTaskToWorker (task_id t) (worker_id b) st = Ok st' →
  getWorkerById st' (worker_id w) = Some (afterAssign t (worker_id b) w).
Proof.
  intros Hcon [i Hi]%list_elem_of_lookup [j Hj]%list_elem_of_lookup
         [k Hk]%list_elem_of_lookup.
  rewrite (assign_eval st i t j b) by done.
  destruct (negb _); [done|]. destruct (_ <? _); [done|]. intros [= <-].
  unfold getWorkerById, workerMap_get; simpl.
  rewrite (workerMap_lookup st Hcon k w Hk).
  rewrite (assign_workers_lookup st Hcon t j b k w); [done|..|done|done].
  by eapply list_elem_of_lookup_2.
Qed.

(** ** Half hours bound to a worker *)

Lemma assignedUnits_cons wid t ts :
  assignedUnits wid (t :: ts) = (unitsFor wid t + assignedUnits wid ts)%nat.
Proof.
  unfold assignedUnits, unitsFor. rewrite filter_cons.
  by destruct (decide (assignedTo t = Some wid)).
Qed.

Lemma assignedUnits_app wid ts1 ts2 :
  assignedUnits wid (ts1 ++ ts2)
  = (assignedUnits wid ts1 + assignedUnits wid ts2)%nat.
Proof.
  induction ts1 as [|t ts1 IH]; [done|].
  change ((t :: ts1) ++ ts2) with (t :: (ts1 ++ ts2)).
  rewrite !assignedUnits_cons, IH. lia.
Qed.

Lemma assignedUnits_insert wid ts i t t' :
  ts !! i = Some t →
  (assignedUnits wid (<[i := t']> ts) + unitsFor wid t
   = assignedUnits wid ts + unitsFor wid t')%nat.
Proof.
  revert i. induction ts as [|u ts IH]; intros [|i] Hi; simplify_eq/=.
  - rewrite !assignedUnits_cons. lia.
  - rewrite !assignedUnits_cons. specialize (IH i Hi). lia.
Qed.

Lemma assignedUnits_delete wid ts i t :
  ts !! i = Some t →
  assignedUnits wid ts = (unitsFor wid t + assignedUnits wid (delete i ts))%nat.
Proof.
  revert i. induction ts as [|u ts IH]; intros [|i] Hi; simplify_eq/=.
  - by rewrite assignedUnits_cons.
  - rewrite !assignedUnits_cons, (IH i) by done. lia.
Qed.

Lemma assignedUnits_unowned wid ts :
  (∀ t, t ∈ ts → assignedTo t ≠ Some wid) → assignedUnits wid ts = 0%nat.
Proof.
  induction ts as [|t ts IH]; intros Hno; [done|].
  rewrite assignedUnits_cons, IH.
  - unfold unitsFor. rewrite decide_False; [done|]. apply Hno. left.
  - intros u Hu. apply Hno. by right.
Qed.

Lemma unitsFor_completed wid t b : unitsFor wid (set_completed b t) = unitsFor wid t.
Proof. done. Qed.

(** The units of an estimate of the form. *)
Lemma estimateUnits_halfHour t :
  halfHourEstimate (timeEstimate t) →
  (1 ≤ estimateUnits t ≤ 16)%nat ∧ timeEstimate t = halfHours (estimateUnits t).
Proof.
  intros (k & Hk & Heq). unfold estimateUnits. rewrite Heq.
  destruct (halfHours_range k) as (_ & _ & _ & _ & ->); [lia|]. simpl. split; [lia|done].
Qed.

Lemma assignedHours_cons wid t ts :
  assignedHours wid (t :: ts)
  = if decide (assignedTo t = Some wid)
    then timeEstimate t + assignedHours wid ts else assignedHours wid ts.
Proof. unfold assignedHours. rewrite filter_cons. by case_decide. Qed.

(** On estimates of the form the sum of the estimates is exact: it is the
    number of half hours, as long as these stay within a day. *)
Lemma assignedHours_halves wid ts :
  (∀ t, t ∈ ts → halfHourEstimate (timeEstimate t)) →
  (assignedUnits wid ts ≤ 16)%nat →
  assignedHours wid ts = halfHours (assignedUnits wid ts).
Proof.
  induction ts as [|t ts IH]; intros Hest Hday; [done|].
  rewrite assignedUnits_cons in Hday. rewrite assignedHours_cons, assignedUnits_cons.
  unfold unitsFor in *. case_decide.
  - destruct (estimateUnits_halfHour t) as [Hk Heq]; [apply Hest; left|].
    rewrite IH, Heq at 1.
    + apply halfHours_add; lia.
    + intros u Hu. apply Hest. by right.
    + lia.
  - apply IH; [|done]. intros u Hu. apply Hest. by right.
Qed.

(** ** The two updates of the hours, on half hours *)

Lemma add_hours_halves w u e :
  totalAssignedHours w = halfHours u → (u ≤ 16)%nat → (e ≤ 16)%nat →
  totalAssignedHours (add_hours (halfHours e) w) = halfHours (u + e).
Proof. intros Hw Hu He. simpl. rewrite Hw. by apply halfHours_add. Qed.

Lemma sub_hours_halves w u e :
  totalAssignedHours w = halfHours u → (u ≤ 32)%nat → (e ≤ u)%nat →
  totalAssignedHours (sub_hours (halfHours e) w) = halfHours (u - e).
Proof. intros Hw Hu He. simpl. rewrite Hw. by apply halfHours_sub. Qed.

(** The hours after an assignment: the half hours held before, less the
    task's when the worker owned it, plus the task's when the worker is
    the target. *)
Lemma afterAssign_halves task target w u e :
  totalAssignedHours w = halfHours u → (u ≤ 16)%nat →
  timeEstimate task = halfHours e → (e ≤ 16)%nat →
  (assignedTo task = Some (worker_id w) → (e ≤ u)%nat) →
  (worker_id w = target → assignedTo task ≠ Some (worker_id w) → (u + e ≤ 16)%nat) →
  totalAssignedHours (afterAssign task target w)
  = halfHours (u - unitsFor (worker_id w) task
               + (if decide (worker_id w = target) then e else 0))%nat.
Proof.
  intros Hw Hu He He16 Hown Htarget. unfold afterAssign, unitsFor, estimateUnits.
  rewrite He. destruct (halfHours_range e He16) as (_ & _ & _ & _ & ->). simpl default.
  destruct (decide (assignedTo task = Some (worker_id w))) as [Ho|Ho];
    destruct (decide (worker_id w = target)) as [Ht|Ht].
  - specialize (Hown Ho).
    rewrite (add_hours_halves _ (u - e) e); [f_equal; lia| |lia..].
    apply sub_hours_halves; [done|lia..].
  - specialize (Hown Ho). rewrite (sub_hours_halves w u e); [f_equal; lia|done|lia..].
  - rewrite (add_hours_halves w u e); [f_equal; lia|done..].
  - rewrite Hw. f_equal. lia.
Qed.

Lemma afterUnassign_halves task w u e :
  totalAssignedHours w = halfHours u → (u ≤ 16)%nat →
  timeEstimate task = halfHours e → (e ≤ 16)%nat →
  (assignedTo task = Some (worker_id w) → (e ≤ u)%nat) →
  totalAssignedHours (afterUnassign task w)
  = halfHours (u - unitsFor (worker_id w) task)%nat.
Proof.
  intros Hw Hu He He16 Hown. unfold afterUnassign, unitsFor, estimateUnits.
  rewrite He. destruct (halfHours_range e He16) as (_ & _ & _ & _ & ->). simpl default.
  case_decide as Ho.
  - specialize (Hown Ho). apply sub_hours_halves; [done|lia..].
  - rewrite Hw. f_equal. lia.
Qed.

(** ** The half-hour invariant *)

Lemma hoursInHalves_match st :
  halfHourEstimates st → hoursInHalves st → hoursMatch st.
Proof.
  intros Hest Hhalves w Hw. destruct (Hhalves w Hw) as [Hday ->].
  symmetry. by apply assignedHours_halves.
Qed.

Lemma hoursInHalves_capacity st : hoursInHalves st → withinCapacity st.
Proof.
  intros Hhalves w Hw. destruct (Hhalves w Hw) as [Hday ->].
  destruct (halfHours_range _ Hday) as (? & ? & _). done.
Qed.

Lemma nothingAssigned_halves st : nothingAssigned st → hoursInHalves st.
Proof.
  intros [Hw Ht] w Hin. rewrite assignedUnits_unowned.
  - split; [lia|]. by apply Hw.
  - intros t Hin' Ha. by rewrite (Ht t Hin') in Ha.
Qed.

Section halves.
Context (st : State) (Hcon : consistent st).
Context (Hest : halfHourEstimates st) (Hhalves : hoursInHalves st).

(** What the invariant says of one worker and one task of the store. *)
Lemma halves_at i task k w :
    tasks st !! i = Some task → workers st !! k = Some w →
    ∃ u e, totalAssignedHours w = halfHours u ∧ (u ≤ 16)%nat
           ∧ timeEstimate task = halfHours e ∧ (1 ≤ e ≤ 16)%nat
           ∧ u = assignedUnits (worker_id w) (tasks st)
           ∧ e = estimateUnits task
           ∧ (unitsFor (worker_id w) task ≤ u)%nat.
  Proof using Hest Hhalves.
    intros Hi Hk.
    destruct (Hhalves w) as [Hday Hw]; [by eapply list_elem_of_lookup_2|].
    destruct (estimateUnits_halfHour task) as [He Heq];
      [by eapply Hest, list_elem_of_lookup_2|].
    exists (assignedUnits (worker_id w) (tasks st)), (estimateUnits task).
    split_and!; try done; try lia.
    rewrite (assignedUnits_delete _ _ i task Hi). lia.
  Qed.

Lemma assign_halves taskId workerId st' :
    assignTaskToWorker taskId workerId st = Ok st' →
    halfHourEstimates st' ∧ hoursInHalves st'.
  Proof using Hcon Hest Hhalves.
    intros (i & task & j & worker & Hi & _ & Hj & <- & _ & Hcap & ->)%assign_Ok;
      [|done].
    assert (task ∈ tasks st) as Ht by by eapply list_elem_of_lookup_2.
    split.
    - intros u [->|Hu]%elem_of_insert_task; [|by apply Hest]. by apply (Hest task).
    - intros w' [k Hk]%list_elem_of_lookup. simpl in Hk |- *.
      assert (worker_id <$> alter (add_hours (timeEstimate task)) j
                              (creditPrevious st task)
              = worker_id <$> workers st) as Hids.
      { rewrite fmap_alter_same by done. apply creditPrevious_ids. }
      destruct (lookup_same_ids st _ k w' Hids Hk) as [w Hw].
      rewrite (assign_workers_lookup st Hcon task j worker k w) in Hk by done.
      injection Hk as <-. rewrite afterAssign_id.
      destruct (halves_at i task k w Hi Hw) as (u & e & Hu & Hu16 & He & He16 & Hu' & He' & Hown).
      pose proof (assignedUnits_insert (worker_id w) _ i task
                    (set_assignedTo (Some (worker_id worker)) task) Hi) as Hins.
      assert (unitsFor (worker_id w) (set_assignedTo (Some (worker_id worker)) task)
              = if decide (worker_id w = worker_id worker) then e else 0%nat) as Hnew.
      { unfold unitsFor. simpl. rewrite He'.
        destruct (decide (worker_id w = worker_id worker)) as [->|Hne].
        - by rewrite decide_True.
        - rewrite decide_False; [done|]. congruence. }
      rewrite Hnew, <-Hu' in Hins.
      assert (worker_id w = worker_id worker →
              assignedTo task ≠ Some (worker_id w) → (u + e ≤ 16)%nat) as Hfits.
      { intros Heq _.
        assert (k = j) as -> by by eapply (worker_position st Hcon).
        assert (w = worker) as -> by congruence.
        rewrite Hu, He, halfHours_add, halfHours_exceeds in Hcap by lia.
        apply bool_decide_eq_false_1 in Hcap. lia. }
      rewrite (afterAssign_halves task (worker_id worker) w u e);
        [|done|done|done|lia| |done].
      2:{ intros Ho. unfold unitsFor in Hown. rewrite decide_True in Hown by done. lia. }
      assert (assignedUnits (worker_id w)
                (<[i:=set_assignedTo (Some (worker_id worker)) task]> (tasks st))
              = (u - unitsFor (worker_id w) task
                 + (if decide (worker_id w = worker_id worker) then e else 0))%nat) as ->
        by lia.
      split; [|done].
      destruct (decide (worker_id w = worker_id worker)) as [Heq|Hne]; [|lia].
      unfold unitsFor in *. destruct (decide (assignedTo task = Some (worker_id w))) as [Ho|Ho].
      + rewrite <-He'. lia.
      + specialize (Hfits Heq Ho). lia.
  Qed.

Lemma unassign_halves taskId st' :
    unassignTask taskId st = Ok st' →
    halfHourEstimates st' ∧ hoursInHalves st'.
  Proof using Hcon Hest Hhalves.
    intros (i & task & Hi & _ & [[_ ->]|[_ ->]])%unassign_Ok; [done| |done].
    assert (task ∈ tasks st) as Ht by by eapply list_elem_of_lookup_2.
    split.
    - intros u [->|Hu]%elem_of_insert_task; [|by apply Hest]. by apply (Hest task).
    - intros w' [k Hk]%list_elem_of_lookup. simpl in Hk |- *.
      destruct (lookup_same_ids st _ k w' (creditPrevious_ids st task) Hk) as [w Hw].
      rewrite (creditPrevious_lookup st Hcon task k w) in Hk by done.
      injection Hk as <-. rewrite afterUnassign_id.
      destruct (halves_at i task k w Hi Hw) as (u & e & Hu & Hu16 & He & He16 & Hu' & He' & Hown).
      pose proof (assignedUnits_insert (worker_id w) _ i task
                    (set_assignedTo None task) Hi) as Hins.
      change (unitsFor (worker_id w) (set_assignedTo None task)) with 0%nat in Hins.
      rewrite <-Hu' in Hins.
      rewrite (afterUnassign_halves task w u e); [|done|done|done|lia|].
      2:{ intros Ho. unfold unitsFor in Hown. rewrite decide_True in Hown by done. lia. }
      assert (assignedUnits (worker_id w) (<[i:=set_assignedTo None task]> (tasks st))
              = (u - unitsFor (worker_id w) task)%nat) as -> by lia.
      split; [lia|done].
  Qed.

Lemma complete_halves taskId st' :
    completeTask taskId st = Ok st' →
    halfHourEstimates st' ∧ hoursInHalves st'.
  Proof using Hest Hhalves.
    intros (i & task & Hi & _ & ->)%complete_Ok.
    assert (task ∈ tasks st) as Ht by by eapply list_elem_of_lookup_2.
    split.
    - intros u [->|Hu]%elem_of_insert_task; [|by apply Hest]. by apply (Hest task).
    - intros w Hw. simpl in Hw |- *.
      pose proof (assignedUnits_insert (worker_id w) _ i task
                    (set_completed true task) Hi) as Hins.
      rewrite unitsFor_completed in Hins.
      assert (assignedUnits (worker_id w) (<[i:=set_completed true task]> (tasks st))
              = assignedUnits (worker_id w) (tasks st)) as -> by lia.
      by apply Hhalves.
  Qed.
End halves.

Lemma step_halves o st :
  wf st → validOp o → halfHourEstimates st → hoursInHalves st →
  halfHourEstimates (step o st) ∧ hoursInHalves (step o st).
Proof.
  intros [Hcon Hiss] Hvalid Hest Hhalves.
  destruct o as [name|id b|desc p estimate dl now|taskId workerId|taskId|taskId]; simpl.
  - split; [done|]. intros w [Hin|Hin]%elem_of_app; simpl; [by apply Hhalves|].
    apply list_elem_of_singleton in Hin as ->. simpl.
    rewrite assignedUnits_unowned; [split; [lia|done]|].
    intros t Ht Ha. apply (addWorker_fresh st Hiss). by eapply (con_owner _ Hcon).
  - destruct (updateWorkerAvailability id b st) as [st'|] eqn:Hop; [|done]. simpl.
    unfold updateWorkerAvailability in Hop.
    destruct (workerMap_get st id) as [[j w0]|]; [|done]. injection Hop as <-.
    split; [done|]. simpl.
    intros w [Hw|(w1 & Hw1 & ->)]%elem_of_alter_worker; [by apply Hhalves|].
    simpl. by apply Hhalves.
  - split.
    + intros t [Hin|Hin]%elem_of_app; [by apply Hest|].
      by apply list_elem_of_singleton in Hin as ->.
    + intros w Hw. simpl in Hw |- *. rewrite assignedUnits_app.
      rewrite (assignedUnits_unowned _ [_]).
      * rewrite Nat.add_0_r. by apply Hhalves.
      * by intros t ->%list_elem_of_singleton.
  - destruct (assignTaskToWorker taskId workerId st) as [st'|] eqn:Hop; [|done].
    by eapply assign_halves.
  - destruct (unassignTask taskId st) as [st'|] eqn:Hop; [|done].
    by eapply unassign_halves.
  - destruct (completeTask taskId st) as [st'|] eqn:Hop; [|done].
    by eapply complete_halves.
Qed.

Lemma run_halves ops st :
  wf st → halfHourEstimates st → hoursInHalves st → Forall validOp ops →
  wf (run ops st) ∧ halfHourEstimates (run ops st) ∧ hoursInHalves (run ops st).
Proof.
  intros Hwf Hest Hhalves. induction ops as [|o ops IH] using rev_ind; intros Hops.
  - done.
  - apply Forall_app in Hops as [Hops Ho]. rewrite Forall_singleton in Ho.
    destruct (IH Hops) as (Hwf' & Hest' & Hhalves'). rewrite run_snoc.
    split; [by apply step_wf|]. by apply step_halves.
Qed.

(** ** Concrete stores *)

Lemma freshStore_tasks : tasks freshStore = [cleanRoom; vacuumHallway; mopRoom].
Proof. by_evaluation. Qed.

Lemma freshStore_workers : workers freshStore = [ann 0; bob 0].
Proof. by_evaluation. Qed.

Lemma busyStore_tasks :
  tasks busyStore = [set_assignedTo (Some "W001") cleanRoom; vacuumHallway; mopRoom].
Proof. by_evaluation. Qed.

Lemma busyStore_workers : workers busyStore = [ann 5; bob 0].
Proof. by_evaluation. Qed.

Lemma sharedStore_workers : workers sharedStore = [ann 5; bob 3].
Proof. by_evaluation. Qed.

Lemma shortTasksStore_tasks :
  tasks shortTasksStore = [wipeCounter; emptyBins; waterPlants].
Proof. by_evaluation. Qed.

Lemma shortTasksStore_workers : workers shortTasksStore = [ann 0].
Proof. by_evaluation. Qed.

Lemma freshStore_wf : wf freshStore.
Proof. apply reachable_wf. Qed.

Lemma busyStore_wf : wf busyStore.
Proof. apply run_wf, freshStore_wf. Qed.

Lemma sharedStore_wf : wf sharedStore.
Proof. apply run_wf, busyStore_wf. Qed.

Lemma shortTasksStore_wf : wf shortTasksStore.
Proof. apply reachable_wf. Qed.

Lemma shortTasksAssigned_wf : wf shortTasksAssigned.
Proof. apply run_wf, shortTasksStore_wf. Qed.

(** The estimates of the three room tasks are whole hours. *)
Lemma freshStore_estimates : halfHourEstimates freshStore.
Proof.
  intros t Ht. rewrite freshStore_tasks in Ht. members Ht.
  - exists 10%nat. split; [lia|by_evaluation].
  - exists 6%nat. split; [lia|by_evaluation].
  - exists 8%nat. split; [lia|by_evaluation].
Qed.

Lemma freshStore_nothingAssigned : nothingAssigned freshStore.
Proof.
  split.
  - intros w Hw. rewrite freshStore_workers in Hw. by members Hw.
  - intros t Ht. rewrite freshStore_tasks in Ht. by members Ht.
Qed.

Lemma busyStore_halves : halfHourEstimates busyStore ∧ hoursInHalves busyStore.
Proof.
  apply run_halves;
    [apply freshStore_wf|apply freshStore_estimates
    |apply nothingAssigned_halves, freshStore_nothingAssigned|by repeat constructor].
Qed.

Lemma sharedStore_halves : halfHourEstimates sharedStore ∧ hoursInHalves sharedStore.
Proof.
  destruct busyStore_halves as [Hest Hhalves].
  apply run_halves; [apply busyStore_wf|done|done|by repeat constructor].
Qed.

(** ** The assignment engine: claims *)

(** The capacity comparison of [assignTaskToWorker] on records of the store. *)
Lemma capacity_comparison st t w :
  consistent st → t ∈ tasks st → w ∈ workers st → availability w = true →
  (assignTaskToWorker (task_id t) (worker_id w) st
     = Throw (WouldExceedMaximumHours (worker_name w))
   ↔ MAX_WORK_HOURS_PER_DAY < totalAssignedHours w + timeEstimate t)
  ∧ (totalAssignedHours w + timeEstimate t ≤ MAX_WORK_HOURS_PER_DAY →
     ∃ st', assignTaskToWorker (task_id t) (worker_id w) st = Ok st').
Proof.
  intros Hcon [i Hi]%list_elem_of_lookup [j Hj]%list_elem_of_lookup Hav.
  rewrite (assign_eval st i t j w) by done. rewrite Hav. simpl. split.
  - destruct (_ <? _); split; done.
  - intros Hle. apply leb_not_ltb in Hle. rewrite Hle. by eexists.
Qed.

(** C1. For a task [t] and an available worker [w] of the store,
    [assign(t.id, w.id)] throws the "would exceed maximum hours" error if
    and only if [w.totalAssignedHours + t.timeEstimate > 8]; when the sum
    is at most 8 it succeeds, in particular when the sum is exactly 8. *)
Theorem assign_capacity_check st t w :
  consistent st → t ∈ tasks st → w ∈ workers st → availability w = true →
  (assignTaskToWorker (task_id t) (worker_id w) st
     = Throw (WouldExceedMaximumHours (worker_name w))
   ↔ MAX_WORK_HOURS_PER_DAY < totalAssignedHours w + timeEstimate t)
  ∧ (totalAssignedHours w + timeEstimate t ≤ MAX_WORK_HOURS_PER_DAY →
     ∃ st', assignTaskToWorker (task_id t) (worker_id w) st = Ok st')
  ∧ (totalAssignedHours w + timeEstimate t = MAX_WORK_HOURS_PER_DAY →
     ∃ st', assignTaskToWorker (task_id t) (worker_id w) st = Ok st').
Proof.
  intros Hcon Ht Hw Hav.
  destruct (capacity_comparison st t w Hcon Ht Hw Hav) as (Hfail & Hok).
  split_and!; [done..|]. intros Heq. apply Hok. by rewrite Heq.
Qed.

Lemma assign_capacity_check_witness :
  (assignTaskToWorker "T002" "W001" busyStore
     = Throw (WouldExceedMaximumHours "Ann")
   ↔ MAX_WORK_HOURS_PER_DAY < 5 + 3)
  ∧ (5 + 3 ≤ MAX_WORK_HOURS_PER_DAY →
     ∃ st', assignTaskToWorker "T002" "W001" busyStore = Ok st')
  ∧ (5 + 3 = MAX_WORK_HOURS_PER_DAY →
     ∃ st', assignTaskToWorker "T002" "W001" busyStore = Ok st').
Proof.
  apply (assign_capacity_check busyStore vacuumHallway (ann 5)).
  - apply busyStore_wf.
  - rewrite busyStore_tasks. apply elem_of_cons. right. left.
  - rewrite busyStore_workers. left.
  - reflexivity.
Defined.

(** C2, as stated: it fails, in two ways.  In [busyStore] every worker's
    hours equal the sum over its unfinished tasks; completing Ann's task
    leaves her hours at 5 while no unfinished task is bound to her any
    more.  And in [shortTasksStore], where no task is ever completed, Ann
    takes the tasks of 0.7 and of 0.6 hours and gives the second back:
    her hours are then 0.7 + 0.6 - 0.6, which is below 0.7 in binary64
    arithmetic, while her only task is the one of 0.7 hours. *)
Lemma hours_differ_from_active_tasks :
  (consistent busyStore ∧ activeHoursMatch busyStore ∧
   ∃ st', completeTask "T001" busyStore = Ok st' ∧ ¬ activeHoursMatch st')
  ∧ (consistent shortTasksStore ∧ activeHoursMatch shortTasksStore ∧
     ∃ st1 st2 st3,
       assignTaskToWorker "T003" "W001" shortTasksStore = Ok st1
       ∧ assignTaskToWorker "T002" "W001" st1 = Ok st2
       ∧ unassignTask "T002" st2 = Ok st3
       ∧ workers st3 = [ann (7 / 10 + 6 / 10 - 6 / 10)]
       ∧ activeHours "W001" (tasks st3) = 7 / 10
       ∧ assignedHours "W001" (tasks st3) = 7 / 10
       ∧ 7 / 10 + 6 / 10 - 6 / 10 < 7 / 10
       ∧ ¬ activeHoursMatch st3 ∧ ¬ hoursMatch st3).
Proof.
  split; (split; [|split]).
  - apply busyStore_wf.
  - intros w Hw. rewrite busyStore_workers in Hw. members Hw; by_evaluation.
  - eexists. split; [reflexivity|]. intros Hmatch.
    specialize (Hmatch (ann 5)). revert Hmatch. simpl.
    rewrite busyStore_workers. intros Hmatch.
    specialize (Hmatch ltac:(left)). revert Hmatch. by_evaluation.
  - apply shortTasksStore_wf.
  - intros w Hw. rewrite shortTasksStore_workers in Hw. members Hw. by_evaluation.
  - eexists _, _, _. split; [reflexivity|]. split; [reflexivity|].
    split; [reflexivity|]. split_and!.
    + by_evaluation.
    + by_evaluation.
    + by_evaluation.
    + by_evaluation.
    + intros Hmatch. specialize (Hmatch (ann (7 / 10 + 6 / 10 - 6 / 10))).
      revert Hmatch. by_evaluation.
    + intros Hmatch. specialize (Hmatch (ann (7 / 10 + 6 / 10 - 6 / 10))).
      revert Hmatch. by_evaluation.
Qed.

(** C2, amended: let every estimate be a multiple of half an hour between
    0.5 and 8, as the task form produces them, and let every worker hold
    the half hours of the tasks bound to it, 8 hours at most.  Then after
    every successful [assign], [unassign] or [complete] each worker's
    [totalAssignedHours] is the sum of [timeEstimate] over all tasks with
    [assignedTo] equal to its id, completed or not (and the store is
    again as assumed), and the same holds after every sequence of
    operations of the module that adds tasks with such estimates only. *)
Theorem hours_match_assigned_tasks st :
  consistent st → halfHourEstimates st → hoursInHalves st →
  (∀ taskId workerId st',
     assignTaskToWorker taskId workerId st = Ok st'
     ∨ unassignTask taskId st = Ok st'
     ∨ completeTask taskId st = Ok st' →
     halfHourEstimates st' ∧ hoursInHalves st'
     ∧ ∀ w, w ∈ workers st' →
            totalAssignedHours w = assignedHours (worker_id w) (tasks st'))
  ∧ (issued st →
     ∀ ops, Forall validOp ops →
     ∀ w, w ∈ workers (run ops st) →
          totalAssignedHours w = assignedHours (worker_id w) (tasks (run ops st))).
Proof.
  intros Hcon Hest Hhalves. split.
  - intros taskId workerId st' Hop.
    assert (halfHourEstimates st' ∧ hoursInHalves st') as [Hest' Hhalves'].
    { destruct Hop as [Hop|[Hop|Hop]].
      - by eapply assign_halves.
      - by eapply unassign_halves.
      - by eapply complete_halves. }
    split_and!; [done..|]. by apply hoursInHalves_match.
  - intros Hiss ops Hops.
    destruct (run_halves ops st) as (_ & Hest' & Hhalves'); [done..|].
    by apply hoursInHalves_match.
Qed.

Lemma hours_match_assigned_tasks_witness :
  Forall (λ w, totalAssignedHours w
               = assignedHours (worker_id w)
                   [set_completed true (set_assignedTo (Some "W001") cleanRoom);
                    vacuumHallway; mopRoom])
         (workers busyStore)
  ∧ hoursMatch (run [OpAssign "T002" "W002"; OpComplete "T001"; OpAssign "T001" "W002";
                     OpUnassign "T002"] busyStore).
Proof.
  destruct (hours_match_assigned_tasks busyStore) as [Hstep Hrun].
  - apply busyStore_wf.
  - apply busyStore_halves.
  - apply busyStore_halves.
  - split.
    + apply Forall_forall.
      apply (Hstep "T001" "W001"
               (with_tasks [set_completed true (set_assignedTo (Some "W001") cleanRoom);
                            vacuumHallway; mopRoom] busyStore)).
      right. right. by_evaluation.
    + intros w Hw. apply Hrun; [apply busyStore_wf|by repeat constructor|done].
Defined.



(** C5. For a task [t] of the store, [complete(t.id)] never throws, and
    the store it leaves differs from the old one only in [t.completed],
    which is [true]: [t.assignedTo], the other tasks, the workers (hence
    their hours), the map and the counters are as before.  Nothing is
    asked of [t]: it may be completed already, or never assigned. *)
Theorem complete_only_sets_flag st t :
  consistent st → t ∈ tasks st →
  ∃ i st',
    tasks st !! i = Some t
    ∧ completeTask (task_id t) st = Ok st'
    ∧ tasks st' = <[i := set_completed true t]> (tasks st)
    ∧ completed (set_completed true t) = true
    ∧ assignedTo (set_completed true t) = assignedTo t
    ∧ timeEstimate (set_completed true t) = timeEstimate t
    ∧ workers st' = workers st
    ∧ workerMap st' = workerMap st
    ∧ nextWorkerId st' = nextWorkerId st
    ∧ nextTaskId st' = nextTaskId st.
Proof.
  intros Hcon [i Hi]%list_elem_of_lookup.
  exists i, (with_tasks (<[i := set_completed true t]> (tasks st)) st).
  split_and!; try done. by apply complete_eval.
Qed.

Lemma complete_only_sets_flag_witness :
  ∃ i st',
    tasks freshStore !! i = Some mopRoom
    ∧ completeTask "T003" freshStore = Ok st'
    ∧ tasks st' = <[i := set_completed true mopRoom]> (tasks freshStore)
    ∧ completed (set_completed true mopRoom) = true
    ∧ assignedTo (set_completed true mopRoom) = None
    ∧ timeEstimate (set_completed true mopRoom) = 4
    ∧ workers st' = workers freshStore
    ∧ workerMap st' = workerMap freshStore
    ∧ nextWorkerId st' = nextWorkerId freshStore
    ∧ nextTaskId st' = nextTaskId freshStore.
Proof.
  apply (complete_only_sets_flag freshStore mopRoom).
  - apply freshStore_wf.
  - rewrite freshStore_tasks. right. right. left.
Defined.

(** C6, as stated: it fails.  In [shortTasksStore] Ann is a fresh worker
    with 0 hours and nothing is assigned.  She takes the task of 0.7
    hours and the task of 0.6 hours and gives them back, the second one
    first: in binary64 arithmetic 0.7 + 0.6 - 0.6 - 0.7 is below 0, so
    her hours end up negative. *)
Lemma rounding_breaks_capacity :
  wf shortTasksStore ∧ nothingAssigned shortTasksStore
  ∧ (∀ t, t ∈ tasks shortTasksStore → 0 < timeEstimate t)
  ∧ workers (run [OpAssign "T003" "W001"; OpAssign "T002" "W001";
                  OpUnassign "T002"; OpUnassign "T003"] shortTasksStore)
    = [ann (7 / 10 + 6 / 10 - 6 / 10 - 7 / 10)]
  ∧ 7 / 10 + 6 / 10 - 6 / 10 - 7 / 10 < 0
  ∧ ¬ withinCapacity (run [OpAssign "T003" "W001"; OpAssign "T002" "W001";
                           OpUnassign "T002"; OpUnassign "T003"] shortTasksStore).
Proof.
  split_and!.
  - apply shortTasksStore_wf.
  - split.
    + intros w Hw. rewrite shortTasksStore_workers in Hw. by members Hw.
    + intros t Ht. rewrite shortTasksStore_tasks in Ht. by members Ht.
  - intros t Ht. rewrite shortTasksStore_tasks in Ht. members Ht; by_evaluation.
  - by_evaluation.
  - by_evaluation.
  - intros Hcap. specialize (Hcap (ann (7 / 10 + 6 / 10 - 6 / 10 - 7 / 10))).
    revert Hcap. by_evaluation.
Qed.

(** C6, amended: start from a well-formed store in which nothing is
    assigned (every worker holds 0 hours) and every estimate is a multiple
    of half an hour between 0.5 and 8, as the task form produces them.
    After any sequence of [addWorker], [assign], [unassign] and
    [complete] calls (availability toggles and [addTask] with such an
    estimate may be mixed in), every worker satisfies
    [0 ≤ totalAssignedHours ≤ 8]. *)
Theorem capacity_invariant ops st :
  wf st → halfHourEstimates st → nothingAssigned st →
  Forall validOp ops →
  withinCapacity (run ops st).
Proof.
  intros Hwf Hest Hfresh Hops. apply hoursInHalves_capacity.
  by apply run_halves; [..|apply nothingAssigned_halves|].
Qed.

Lemma capacity_invariant_witness :
  withinCapacity
    (run [OpAssign "T001" "W001"; OpAssign "T002" "W001"; OpAssign "T003" "W001";
          OpAddWorker "Cy"; OpAssign "T001" "W003"; OpComplete "T002";
          OpUnassign "T001"; OpAssign "T003" "W001"]
         freshStore).
Proof.
  apply capacity_invariant.
  - apply freshStore_wf.
  - apply freshStore_estimates.
  - apply freshStore_nothingAssigned.
  - by repeat constructor.
Defined.

(** In [busyStore] Ann holds the 5 hours of "Clean Room 101"; assigning
    that task to her again is refused, since 5 + 5 exceeds 8. *)
Example reassign_same_worker_refused :
  assignTaskToWorker "T001" "W001" busyStore
  = Throw (WouldExceedMaximumHours "Ann").
Proof. by_evaluation. Qed.

(** C10, as stated: its last part fails.  In [shortTasksAssigned] Ann is
    available and holds the tasks of 0.5, 0.6 and 0.7 hours.  Assigning
    the task of 0.6 hours to her again succeeds, and her hours are no
    longer what they were: 0.5 + 0.6 + 0.7 - 0.6 + 0.6 is above
    0.5 + 0.6 + 0.7 in binary64 arithmetic. *)
Lemma reassign_same_worker_drifts :
  consistent shortTasksAssigned
  ∧ getWorkerById shortTasksAssigned "W001" = Some (ann (5 / 10 + 6 / 10 + 7 / 10))
  ∧ (∃ i t, tasks shortTasksAssigned !! i = Some t ∧ task_id t = "T002"
            ∧ assignedTo t = Some "W001" ∧ timeEstimate t = 6 / 10)
  ∧ ∃ st', assignTaskToWorker "T002" "W001" shortTasksAssigned = Ok st'
           ∧ getWorkerById st' "W001"
             = Some (ann (5 / 10 + 6 / 10 + 7 / 10 - 6 / 10 + 6 / 10))
           ∧ 5 / 10 + 6 / 10 + 7 / 10 < 5 / 10 + 6 / 10 + 7 / 10 - 6 / 10 + 6 / 10.
Proof.
  split_and!.
  - apply shortTasksAssigned_wf.
  - by_evaluation.
  - exists 1%nat, (set_assignedTo (Some "W001") emptyBins). by split_and!.
  - eexists. split; [reflexivity|]. split; by_evaluation.
Qed.

(** C10, amended: let task [t] be bound to the available worker [w].
    Calling [assign(t.id, w.id)] again throws the capacity error exactly
    when [w.totalAssignedHours + t.timeEstimate > 8], and succeeds when
    the sum is at most 8.  When the call succeeds the worker's record is
    what it was except for the hours, which are
    [w.totalAssignedHours - t.timeEstimate + t.timeEstimate] in the
    arithmetic of the language.  When every estimate is a multiple of
    half an hour between 0.5 and 8 and every worker holds the half hours
    of the tasks bound to it, [w.totalAssignedHours] already contains
    [t.timeEstimate], so the estimate enters the comparison twice, and
    after a successful call the hours are what they were. *)
Theorem reassign_same_worker st t w :
  consistent st → t ∈ tasks st → w ∈ workers st →
  assignedTo t = Some (worker_id w) → availability w = true →
  (assignTaskToWorker (task_id t) (worker_id w) st
     = Throw (WouldExceedMaximumHours (worker_name w))
   ↔ MAX_WORK_HOURS_PER_DAY < totalAssignedHours w + timeEstimate t)
  ∧ (totalAssignedHours w + timeEstimate t ≤ MAX_WORK_HOURS_PER_DAY →
     ∃ st', assignTaskToWorker (task_id t) (worker_id w) st = Ok st')
  ∧ (∀ st', assignTaskToWorker (task_id t) (worker_id w) st = Ok st' →
            getWorkerById st' (worker_id w)
            = Some (set_totalAssignedHours
                      (totalAssignedHours w - timeEstimate t + timeEstimate t) w))
  ∧ (halfHourEstimates st → hoursInHalves st →
     (∃ i, tasks st !! i = Some t
           ∧ totalAssignedHours w + timeEstimate t
             = assignedHours (worker_id w) (delete i (tasks st))
               + timeEstimate t + timeEstimate t)
     ∧ ∀ st', assignTaskToWorker (task_id t) (worker_id w) st = Ok st' →
              getWorkerById st' (worker_id w) = Some w).
Proof.
  intros Hcon Ht Hw Howner Hav.
  destruct (capacity_comparison st t w Hcon Ht Hw Hav) as (Hfail & Hok).
  assert (∀ st', assignTaskToWorker (task_id t) (worker_id w) st = Ok st' →
            getWorkerById st' (worker_id w)
            = Some (set_totalAssignedHours
                      (totalAssignedHours w - timeEstimate t + timeEstimate t) w))
    as Hafter.
  { intros st' Hop. rewrite (assign_getWorkerById st t w st' w) by done.
    unfold afterAssign. by repeat case_decide. }
  split_and!; [done..|]. intros Hest Hhalves.
  destruct (proj1 (list_elem_of_lookup _ _) Ht) as [i Hi].
  destruct (proj1 (list_elem_of_lookup _ _) Hw) as [k Hk].
  destruct (halves_at st Hest Hhalves i t k w Hi Hk)
    as (u & e & Hu & Hu16 & He & He16 & Hu' & He' & Hown).
  unfold unitsFor in Hown. rewrite decide_True, <-He' in Hown by done.
  split.
  - exists i. split; [done|].
    pose proof (assignedUnits_delete (worker_id w) _ i t Hi) as Hdel.
    unfold unitsFor in Hdel. rewrite decide_True, <-He', <-Hu' in Hdel by done.
    rewrite assignedHours_halves.
    + rewrite Hu, He.
      replace (assignedUnits (worker_id w) (delete i (tasks st))) with (u - e)%nat by lia.
      rewrite (halfHours_add (u - e) e), !halfHours_add by lia.
      f_equal. lia.
    + intros t' Ht'. by eapply Hest, list_elem_of_delete_inv.
    + lia.
  - intros st' Hop. rewrite (Hafter st' Hop). f_equal.
    rewrite Hu, He, halfHours_sub, halfHours_add by lia.
    replace (u - e + e)%nat with u by lia. rewrite <-Hu.
    apply set_totalAssignedHours_same.
Qed.

Lemma reassign_same_worker_witness :
  (assignTaskToWorker "T002" "W002" sharedStore
     = Throw (WouldExceedMaximumHours "Bob")
   ↔ MAX_WORK_HOURS_PER_DAY < 3 + 3)
  ∧ (3 + 3 ≤ MAX_WORK_HOURS_PER_DAY →
     ∃ st', assignTaskToWorker "T002" "W002" sharedStore = Ok st')
  ∧ (∀ st', assignTaskToWorker "T002" "W002" sharedStore = Ok st' →
            getWorkerById st' "W002" = Some (set_totalAssignedHours (3 - 3 + 3) (bob 3)))
  ∧ (∃ i, tasks sharedStore !! i = Some (set_assignedTo (Some "W002") vacuumHallway)
          ∧ 3 + 3 = assignedHours "W002" (delete i (tasks sharedStore)) + 3 + 3)
  ∧ ∀ st', assignTaskToWorker "T002" "W002" sharedStore = Ok st' →
           getWorkerById st' "W002" = Some (bob 3).
Proof.
  destruct (reassign_same_worker sharedStore
              (set_assignedTo (Some "W002") vacuumHallway) (bob 3))
    as (Hfails & Hsucceeds & Hafter & Hhalves).
  - apply sharedStore_wf.
  - apply (list_elem_of_lookup_2 _ 1). by_evaluation.
  - rewrite sharedStore_workers. right. left.
  - reflexivity.
  - reflexivity.
  - destruct Hhalves as [Htwice Hsame]; [apply sharedStore_halves..|].
    split_and!; [exact Hfails|exact Hsucceeds|exact Hafter|exact Htwice|exact Hsame].
Defined.

(** ** The task store: claims *)

(** C4, as stated: it fails.  [addTask] accepts an empty description, a
    negative estimate and a deadline that is no date; and on an input
    that passes all three checks it throws, not a validation error but
    "Failed to save data", when the snapshot cannot be written. *)
Lemma addTask_accepts_invalid_input :
  (∃ task st',
     addTask "" high (-1) "someday" "2024-01-01T08:00:00.000Z" initialState
     = Ok (task, st')
     ∧ description task = ""
     ∧ timeEstimate task ≤ 0
     ∧ validateDate januaryDates (deadline task) = false)
  ∧ (trim "Clean Room 101" ≠ "" ∧ 0 < 5
     ∧ validateDate januaryDates "2024-01-10" = true
     ∧ addTaskTo (λ _, false) "Clean Room 101" high 5 "2024-01-10"
         "2024-01-01T08:00:00.000Z" initialState
       = (run [OpAddTaskOf cleanRoom] initialState, Throw FailedToSaveData)).
Proof.
  split.
  - do 2 eexists. split; [reflexivity|]. split_and!; [done| |done]. by_evaluation.
  - split_and!; by_evaluation.
Qed.

(** C4, amended: [addTask] checks none of its arguments and never
    fails with a validation error.  For every input it builds a task with
    the given fields, the next id, [assignedTo = null] and
    [completed = false] and appends it to the task list; it returns that
    task when the snapshot can be written, and throws "Failed to save
    data" when it cannot.  The checks of the claim are made by
    the form handler before it calls [addTask]: when the trimmed
    description is empty, or the deadline is not a valid date, or the
    estimate is at most 0, [handleAddTask] shows an error and leaves the
    store alone; when the trimmed description is not empty, the deadline
    is valid and the estimate is above 0, it passes the trimmed
    description on to [addTask]. *)
Theorem addTask_checks_nothing getTime setItem desc p estimate dl assignTo now st :
  (∃ task st',
      addTaskTo setItem desc p estimate dl now st
      = (st', if setItem (saveData st') then Ok task else Throw FailedToSaveData)
      ∧ addTask desc p estimate dl now st = Ok (task, st')
      ∧ assignedTo task = None ∧ completed task = false
      ∧ task_id task = taskIdOf (nextTaskId st)
      ∧ description task = desc ∧ priority task = p
      ∧ timeEstimate task = estimate ∧ deadline task = dl ∧ createdAt task = now
      ∧ tasks st' = tasks st ++ [task])
  ∧ (trim desc = "" ∨ validateDate getTime dl = false ∨ estimate ≤ 0 →
     ∃ text, handleAddTask getTime desc p estimate dl assignTo now st
             = (ShowError text, st))
  ∧ (trim desc ≠ "" → validateDate getTime dl = true → 0 < estimate →
     assignTo = "" →
     ∃ task st',
       addTask (trim desc) p estimate dl now st = Ok (task, st')
       ∧ handleAddTask getTime desc p estimate dl assignTo now st
         = (ShowCreated task, st')).
Proof.
  split_and!.
  - do 2 eexists. split; [|split; [reflexivity|by split_and!]].
    unfold addTaskTo, saveDataTo. by destruct (setItem _).
  - intros Hbad. unfold handleAddTask.
    destruct (String.eqb_spec (trim desc) "") as [_|Hdesc]; [by eexists|].
    destruct (validateDate getTime dl) eqn:Hdate; simpl; [|by eexists].
    destruct (estimate <=? 0) eqn:Hle; [by eexists|].
    destruct Hbad as [?|[?|?]]; [done|done|congruence].
  - intros Hdesc Hdate Hpos ->. unfold handleAddTask.
    destruct (String.eqb_spec (trim desc) "") as [|_]; [done|].
    rewrite Hdate. simpl. rewrite (ltb_not_leb _ _ Hpos).
    do 2 eexists. split; reflexivity.
Qed.

Lemma addTask_checks_nothing_witness :
  (∃ task st',
      addTaskTo (λ _, false) "  " low 0 "someday" "now" freshStore
      = (st', if false then Ok task else Throw FailedToSaveData)
      ∧ addTask "  " low 0 "someday" "now" freshStore = Ok (task, st')
      ∧ assignedTo task = None ∧ completed task = false
      ∧ task_id task = taskIdOf (nextTaskId freshStore)
      ∧ description task = "  " ∧ priority task = low
      ∧ timeEstimate task = 0 ∧ deadline task = "someday"
      ∧ createdAt task = "now"
      ∧ tasks st' = tasks freshStore ++ [task])
  ∧ (trim "  " = "" ∨ validateDate januaryDates "someday" = false ∨ 0 ≤ 0 →
     ∃ text, handleAddTask januaryDates "  " low 0 "someday" "" "now" freshStore
             = (ShowError text, freshStore))
  ∧ (trim "  " ≠ "" → validateDate januaryDates "someday" = true → 0 < 0 →
     "" = "" →
     ∃ task st',
       addTask (trim "  ") low 0 "someday" "now" freshStore = Ok (task, st')
       ∧ handleAddTask januaryDates "  " low 0 "someday" "" "now" freshStore
         = (ShowCreated task, st')).
Proof.
  apply (addTask_checks_nothing januaryDates (λ _, false) "  " low 0 "someday" "").
Defined.

(** ** Sorting *)

Section stable_insertion.
Context {A : Type} (comparefn : A → A → option Z).

Lemma insertSorted_Permutation x l : insertSorted comparefn x l ≡ₚ x :: l.
  Proof.
    induction l as [|y l IH]; simpl; [done|].
    case_decide; [done|]. rewrite IH. apply Permutation_swap.
  Qed.

Lemma Array_sort_Permutation l : Array_sort comparefn l ≡ₚ l.
  Proof.
    induction l as [|x l IH]; simpl; [done|].
    by rewrite insertSorted_Permutation, IH.
  Qed.

  (** Elements that an insertion jumps over are outside every class [P]
      of mutually non-greater elements that contains the inserted one. *)
Lemma insertSorted_filter (P : A → Prop) `{!∀ x, Decision (P x)} x l :
    (∀ y z, P y → P z → (SortCompare comparefn y z ≤ 0)%Z) →
    filter P (insertSorted comparefn x l) = filter P (x :: l).
  Proof.
    intros Hclass. induction l as [|y l IH]; simpl; [done|].
    case_decide as Hle; [done|].
    rewrite filter_cons, IH, !filter_cons.
    destruct (decide (P y)) as [Hy|Hy]; [|done].
    destruct (decide (P x)) as [Hx|Hx]; [|done].
    destruct Hle. by apply Hclass.
  Qed.

Lemma Array_sort_filter (P : A → Prop) `{!∀ x, Decision (P x)} l :
    (∀ y z, P y → P z → (SortCompare comparefn y z ≤ 0)%Z) →
    filter P (Array_sort comparefn l) = filter P l.
  Proof.
    intros Hclass. induction l as [|x l IH]; simpl; [done|].
    rewrite insertSorted_filter by done. by rewrite !filter_cons, IH.
  Qed.

Context (R : A → A → Prop) (ok : A → Prop).
Context (R_below : ∀ x y, ok x → ok y → (SortCompare comparefn x y ≤ 0)%Z → R x y).
Context (R_above : ∀ x y, ok x → ok y → ¬ (SortCompare comparefn x y ≤ 0)%Z → R y x).
Context (R_trans : ∀ x y z, R x y → R y z → R x z).

Lemma insertSorted_StronglySorted x l :
    ok x → Forall ok l → StronglySorted R l →
    StronglySorted R (insertSorted comparefn x l).
  Proof using R_below R_above R_trans.
    intros Hx Hl Hs. induction Hs as [|y l Hs IH Hy]; simpl.
    - repeat constructor.
    - apply Forall_cons in Hl as [Hoky Hl]. case_decide as Hle.
      + pose proof (R_below x y Hx Hoky Hle) as Hxy.
        constructor; [by constructor|]. constructor; [done|].
        eapply Forall_impl; [exact Hy|]. intros z Hz. by eapply R_trans.
      + constructor; [by apply IH|].
        rewrite insertSorted_Permutation. constructor; [|done].
        by apply R_above.
  Qed.

Lemma Array_sort_StronglySorted l :
    Forall ok l → StronglySorted R (Array_sort comparefn l).
  Proof using R_below R_above R_trans.
    induction l as [|x l IH]; intros Hl; simpl; [constructor|].
    apply Forall_cons in Hl as [Hx Hl].
    apply insertSorted_StronglySorted; [done| |by apply IH].
    by rewrite Array_sort_Permutation.
  Qed.
End stable_insertion.

(** Two lists in order that hold the same elements, the elements of each
    class of equal keys in the same order, are the same list: the order
    and the stability together fix the result of a sort. *)
Section unique_order.
Context {A : Type} (R E : A → A → Prop) `{!∀ x y, Decision (E x y)}.
Context (E_refl : ∀ x, E x x) (R_antisym : ∀ x y, R x y → R y x → E x y).

Lemma sorted_stable_unique l1 l2 :
    l1 ≡ₚ l2 → StronglySorted R l1 → StronglySorted R l2 →
    (∀ t, filter (E t) l1 = filter (E t) l2) → l1 = l2.
  Proof using E_refl R_antisym.
    revert l2. induction l1 as [|x l1 IH]; intros l2 Hperm Hs1 Hs2 Hclass.
    - by apply Permutation_nil_l in Hperm.
    - destruct l2 as [|y l2]; [by apply Permutation_nil_r in Hperm|].
      apply StronglySorted_inv in Hs1 as [Hs1 Hx].
      apply StronglySorted_inv in Hs2 as [Hs2 Hy].
      assert (E x y) as Hxy.
      { assert (x ∈ y :: l2) as [->|Hin]%elem_of_cons
          by (rewrite <-Hperm; left); [done|].
        assert (y ∈ x :: l1) as [->|Hin']%elem_of_cons
          by (rewrite Hperm; left); [done|].
        rewrite Forall_forall in Hx, Hy. apply R_antisym; auto. }
      pose proof (Hclass x) as Hhead.
      rewrite !filter_cons, !decide_True in Hhead by done.
      injection Hhead as <- _. f_equal.
      apply IH; [by eapply Permutation_cons_inv|done..|].
      intros t. specialize (Hclass t). rewrite !filter_cons in Hclass.
      case_decide; [by injection Hclass|done].
  Qed.

  (** In a list in order any two elements are comparable. *)
Lemma StronglySorted_comparable l x y :
    StronglySorted R l → x ∈ l → y ∈ l → x = y ∨ R x y ∨ R y x.
  Proof.
    induction 1 as [|z l Hs IH Hz]; intros Hx Hy; [by apply elem_of_nil in Hx|].
    rewrite Forall_forall in Hz.
    apply elem_of_cons in Hx as [->|Hx]; apply elem_of_cons in Hy as [->|Hy]; auto.
  Qed.
End unique_order.

Section priority_order.
Context (getTime : string → option Z).

Lemma comparePriority_valid a b x y :
    getTime (deadline a) = Some x → getTime (deadline b) = Some y →
    SortCompare (comparePriority getTime) a b
    = if decide (PRIORITY_WEIGHTS (priority b) - PRIORITY_WEIGHTS (priority a) ≠ 0)%Z
      then (PRIORITY_WEIGHTS (priority b) - PRIORITY_WEIGHTS (priority a))%Z
      else (x - y)%Z.
  Proof.
    intros Ha Hb. unfold SortCompare, comparePriority. rewrite Ha, Hb.
    by case_decide.
  Qed.

Lemma priorityOrder_below a b :
    is_Some (getTime (deadline a)) → is_Some (getTime (deadline b)) →
    (SortCompare (comparePriority getTime) a b ≤ 0)%Z → priorityOrder getTime a b.
  Proof.
    intros [x Hx] [y Hy]. rewrite (comparePriority_valid a b x y) by done.
    unfold priorityOrder. case_decide; intros Hle.
    - left. lia.
    - right. split; [lia|]. exists x, y. split_and!; [done..|lia].
  Qed.

Lemma priorityOrder_above a b :
    is_Some (getTime (deadline a)) → is_Some (getTime (deadline b)) →
    ¬ (SortCompare (comparePriority getTime) a b ≤ 0)%Z → priorityOrder getTime b a.
  Proof.
    intros [x Hx] [y Hy]. rewrite (comparePriority_valid a b x y) by done.
    unfold priorityOrder. case_decide; intros Hle.
    - left. lia.
    - right. split; [lia|]. exists y, x. split_and!; [done..|lia].
  Qed.

Lemma priorityOrder_trans a b c :
    priorityOrder getTime a b → priorityOrder getTime b c → priorityOrder getTime a c.
  Proof.
    intros [Hab|(Hab & x & y & Hx & Hy & Hxy)] [Hbc|(Hbc & y' & z & Hy' & Hz & Hyz)].
    - left. lia.
    - left. lia.
    - left. lia.
    - right. split; [lia|]. exists x, z. split_and!; [done..|].
      simplify_eq. lia.
  Qed.

Lemma sameKeys_compare t a b :
    sameKeys getTime t a → sameKeys getTime t b →
    (SortCompare (comparePriority getTime) a b ≤ 0)%Z.
  Proof.
    intros [Hpa Hta] [Hpb Htb]. unfold SortCompare, comparePriority.
    rewrite <-Hpa, <-Hpb, <-Hta, <-Htb. rewrite decide_False by lia.
    destruct (getTime (deadline t)); simpl; lia.
  Qed.
End priority_order.

Lemma PRIORITY_WEIGHTS_inj p q : PRIORITY_WEIGHTS p = PRIORITY_WEIGHTS q → p = q.
Proof. by destruct p, q. Qed.

Lemma priorityOrder_antisym getTime a b :
  priorityOrder getTime a b → priorityOrder getTime b a → sameKeys getTime a b.
Proof.
  intros [Hab|(Hab & x & y & Hx & Hy & Hxy)] [Hba|(Hba & y' & x' & Hy' & Hx' & Hyx)];
    try lia.
  split; [by apply PRIORITY_WEIGHTS_inj|]. simplify_eq. rewrite Hx, Hy. f_equal. lia.
Qed.

(** C7, as stated: it fails on a list with a deadline that is no date.
    "Wash Windows" has the deadline "next week", so every comparison with
    it gives [NaN], which [sort] takes as 0: the list "Clean Room 101"
    (Jan 10), "Wash Windows", "Vacuum Hallway" (Jan 5), all three of high
    priority, compares as equal at every neighbouring pair and comes back
    as it is, the task due Jan 10 before the task due Jan 5.  No
    arrangement of the three tasks is in the order the claim asks for. *)
Lemma sortTasksByPriority_invalid_deadline :
  sortTasksByPriority januaryDates [cleanRoom; washWindows; vacuumHallway]
  = [cleanRoom; washWindows; vacuumHallway]
  ∧ SortCompare (comparePriority januaryDates) cleanRoom washWindows = 0%Z
  ∧ SortCompare (comparePriority januaryDates) washWindows vacuumHallway = 0%Z
  ∧ priority cleanRoom = priority vacuumHallway
  ∧ januaryDates (deadline cleanRoom) = Some 1704844800000%Z
  ∧ januaryDates (deadline vacuumHallway) = Some 1704412800000%Z
  ∧ ¬ priorityOrder januaryDates cleanRoom vacuumHallway
  ∧ ∀ sorted, sorted ≡ₚ [cleanRoom; washWindows; vacuumHallway] →
              ¬ StronglySorted (priorityOrder januaryDates) sorted.
Proof.
  split_and!; try done.
  - intros [Hlt|(_ & x & y & Hx & Hy & Hxy)]; [done|].
    vm_compute in Hx, Hy. simplify_eq. lia.
  - intros sorted Hperm Hsorted.
    destruct (StronglySorted_comparable _ sorted cleanRoom washWindows Hsorted)
      as [?|[[?|(_ & x & y & _ & Hy & _)]|[?|(_ & x & y & Hx & _)]]]; try done.
    + rewrite Hperm. left.
    + rewrite Hperm. right. left.
Qed.

(** C7, amended: on tasks whose deadlines are all valid dates,
    [sortTasksByPriority] returns a rearrangement of its input in which
    every task stands before all tasks of lighter priority and, among
    tasks of its own priority, before all tasks with a later deadline;
    tasks equal in both keys keep the order they had in the input; and no
    other list has these three properties, so the result does not depend
    on how [sort] proceeds.  The function builds a new list, so the input
    is as it was, and the result is a rearrangement of the input whatever
    the deadlines.  Two high-priority tasks with the later deadline
    first, followed by a low-priority task, come out with the two
    high-priority tasks swapped. *)
Theorem sortTasksByPriority_spec getTime :
  (∀ ts, validDeadlines getTime ts →
     StronglySorted (priorityOrder getTime) (sortTasksByPriority getTime ts)
     ∧ (∀ t, filter (sameKeys getTime t) (sortTasksByPriority getTime ts)
             = filter (sameKeys getTime t) ts)
     ∧ ∀ sorted,
         sorted ≡ₚ ts → StronglySorted (priorityOrder getTime) sorted →
         (∀ t, filter (sameKeys getTime t) sorted = filter (sameKeys getTime t) ts) →
         sorted = sortTasksByPriority getTime ts)
  ∧ (∀ ts, sortTasksByPriority getTime ts ≡ₚ ts)
  ∧ (∀ a b c x y,
       priority a = high → priority b = high → priority c = low →
       getTime (deadline a) = Some x → getTime (deadline b) = Some y → (y < x)%Z →
       sortTasksByPriority getTime [a; b; c] = [b; a; c]).
Proof.
  split_and!.
  - intros ts Hvalid.
    assert (StronglySorted (priorityOrder getTime) (sortTasksByPriority getTime ts))
      as Hsorted.
    { unfold sortTasksByPriority.
      apply (Array_sort_StronglySorted _ _ (λ t, is_Some (getTime (deadline t)))).
      - apply priorityOrder_below.
      - apply priorityOrder_above.
      - apply priorityOrder_trans.
      - by apply Forall_forall. }
    assert (∀ t, filter (sameKeys getTime t) (sortTasksByPriority getTime ts)
                 = filter (sameKeys getTime t) ts) as Hstable.
    { intros t. apply Array_sort_filter. apply sameKeys_compare. }
    split_and!; [done..|]. intros sorted Hperm Hsorted' Hstable'.
    apply (sorted_stable_unique (priorityOrder getTime) (sameKeys getTime)).
    + done.
    + apply priorityOrder_antisym.
    + rewrite Hperm. symmetry. apply Array_sort_Permutation.
    + done.
    + done.
    + intros t. by rewrite Hstable, Hstable'.
  - intros ts. apply Array_sort_Permutation.
  - intros a b c x y Ha Hb Hc Hx Hy Hlt.
    unfold sortTasksByPriority, Array_sort; simpl.
    rewrite decide_True.
    2:{ unfold SortCompare, comparePriority. rewrite Hb, Hc. simpl. lia. }
    simpl. rewrite decide_False.
    2:{ rewrite (comparePriority_valid getTime a b x y) by done.
        rewrite Ha, Hb. simpl. lia. }
    rewrite decide_True; [done|].
    unfold SortCompare, comparePriority. rewrite Ha, Hc. simpl. lia.
Qed.

Lemma sortTasksByPriority_spec_witness :
  (StronglySorted (priorityOrder januaryDates)
     (sortTasksByPriority januaryDates [cleanRoom; vacuumHallway; mopRoom])
   ∧ (∀ t, filter (sameKeys januaryDates t)
             (sortTasksByPriority januaryDates [cleanRoom; vacuumHallway; mopRoom])
           = filter (sameKeys januaryDates t) [cleanRoom; vacuumHallway; mopRoom])
   ∧ ∀ sorted,
       sorted ≡ₚ [cleanRoom; vacuumHallway; mopRoom] →
       StronglySorted (priorityOrder januaryDates) sorted →
       (∀ t, filter (sameKeys januaryDates t) sorted
             = filter (sameKeys januaryDates t) [cleanRoom; vacuumHallway; mopRoom]) →
       sorted = sortTasksByPriority januaryDates [cleanRoom; vacuumHallway; mopRoom])
  ∧ sortTasksByPriority januaryDates [cleanRoom; vacuumHallway; mopRoom]
    = [vacuumHallway; cleanRoom; mopRoom].
Proof.
  destruct (sortTasksByPriority_spec januaryDates) as (Hsorted & _ & Hexample).
  split.
  - apply Hsorted. intros t Ht. members Ht; by eexists.
  - by apply (Hexample cleanRoom vacuumHallway mopRoom 1704844800000%Z 1704412800000%Z).
Defined.

(** ** Search *)

Lemma append_String c s1 s2 : String c s1 +:+ s2 = String c (s1 +:+ s2).
Proof. done. Qed.

Lemma prefix_spec q s : String.prefix q s = true ↔ ∃ post, s = q +:+ post.
Proof.
  revert s. induction q as [|c q IH]; intros [|d s]; simpl.
  - split; [|done]. intros _. by exists "".
  - split; [|done]. intros _. by exists (String d s).
  - split; [done|]. by intros [post ?].
  - destruct (Ascii.ascii_dec c d) as [->|Hne].
    + rewrite IH. split; intros [post Hpost]; exists post.
      * by rewrite append_String, Hpost.
      * rewrite append_String in Hpost. congruence.
    + split; [done|]. intros [post Hpost].
      rewrite append_String in Hpost. congruence.
Qed.

Lemma includes_spec s q : includes s q = true ↔ ∃ pre post, s = pre +:+ q +:+ post.
Proof.
  induction s as [|c s IH].
  - change (includes "" q) with (String.prefix q "" || false).
    rewrite orb_false_r, prefix_spec. split.
    + intros [post Hpost]. by exists "", post.
    + intros (pre & post & Heq). destruct pre; [by exists post|done].
  - change (includes (String c s) q)
      with (String.prefix q (String c s) || includes s q).
    rewrite orb_true_iff, prefix_spec, IH. split.
    + intros [[post Hpost]|(pre & post & Heq)].
      * by exists "", post.
      * exists (String c pre), post. by rewrite append_String, Heq.
    + intros ([|d pre] & post & Heq).
      * left. by exists post.
      * right. exists pre, post. rewrite append_String in Heq. congruence.
Qed.

Lemma includes_empty s : includes s "" = true.
Proof. apply includes_spec. by exists "", s. Qed.

Lemma toLowerCase_empty q : toLowerCase q = "" → q = "".
Proof. by destruct q. Qed.

Lemma ciContains_includes field q :
  includes (toLowerCase field) (toLowerCase q) = true ↔ ciContains field q.
Proof. apply includes_spec. Qed.

Lemma matchesQuery_spec q t :
  matchesQuery (toLowerCase q) t = true ↔ matchesSomeField q t.
Proof.
  unfold matchesQuery, matchesSomeField.
  rewrite !orb_true_iff, andb_true_iff, !ciContains_includes. split.
  - intros [[?|?]|[Htruthy Hinc]]; [by left|by right; left|].
    right; right. destruct (assignedTo t) as [a|]; [|done].
    exists a. split; [done|]. by apply ciContains_includes.
  - intros [?|[?|(a & Ha & Hinc)]]; [by left; left|by left; right|].
    rewrite Ha. simpl. destruct (String.eqb_spec a "") as [->|Hne].
    + left; left. destruct Hinc as (pre & post & Heq). simpl in Heq.
      assert (q = "") as ->.
      { apply toLowerCase_empty. destruct pre; [|done]. simpl in Heq.
        by destruct (toLowerCase q). }
      apply ciContains_includes, includes_empty.
    + right. split; [done|]. by apply ciContains_includes.
Qed.

(** C8. [searchTasks(query)] keeps exactly the tasks of the store one of
    whose description, id or assigned worker id contains the query when
    case is ignored (an unassigned task cannot match through the third
    field), in the order of the store: it is the filter of the task list
    by that condition.  Over the three tasks "Clean Room 101", "Vacuum
    Hallway", "Mop Room 202" the query "room" returns the first and the
    third. *)
Theorem searchTasks_spec query st :
  (∀ t, t ∈ searchTasks query st ↔ t ∈ tasks st ∧ matchesSomeField query t)
  ∧ searchTasks query st `sublist_of` tasks st
  ∧ (∀ (P : Task → Prop) `{!∀ t, Decision (P t)},
       (∀ t, P t ↔ matchesSomeField query t) →
       searchTasks query st = filter P (tasks st))
  ∧ (∀ t, assignedTo t = None →
          (matchesSomeField query t
           ↔ ciContains (description t) query ∨ ciContains (task_id t) query))
  ∧ (description <$> tasks st = ["Clean Room 101"; "Vacuum Hallway"; "Mop Room 202"] →
     task_id <$> tasks st = ["T001"; "T002"; "T003"] →
     Forall (λ t, assignedTo t = None) (tasks st) →
     ∃ t1 t2 t3, tasks st = [t1; t2; t3] ∧ searchTasks "room" st = [t1; t3]).
Proof.
  split_and!.
  - intros t. unfold searchTasks. rewrite list_elem_of_filter, matchesQuery_spec.
    tauto.
  - apply sublist_filter.
  - intros P HP Hiff. unfold searchTasks. apply list_filter_iff.
    intros t. by rewrite matchesQuery_spec, Hiff.
  - intros t Hnone. unfold matchesSomeField. rewrite Hnone.
    split; [|tauto]. by intros [?|[?|(a & ? & _)]]; [left|right|].
  - intros Hdesc Hids Hnone.
    destruct (tasks st) as [|t1 [|t2 [|t3 [|]]]] eqn:Hts; try done.
    exists t1, t2, t3. split; [done|].
    unfold searchTasks. rewrite Hts. simpl in Hdesc, Hids.
    injection Hdesc as Hd1 Hd2 Hd3. injection Hids as Hi1 Hi2 Hi3.
    apply Forall_cons in Hnone as [Hn1 Hnone].
    apply Forall_cons in Hnone as [Hn2 Hnone].
    apply Forall_cons in Hnone as [Hn3 _].
    rewrite !filter_cons, filter_nil. unfold matchesQuery.
    rewrite Hn1, Hn2, Hn3, Hd1, Hd2, Hd3, Hi1, Hi2, Hi3. reflexivity.
Qed.

Lemma searchTasks_spec_witness :
  ∃ t1 t2 t3, tasks freshStore = [t1; t2; t3] ∧ searchTasks "room" freshStore = [t1; t3].
Proof.
  destruct (searchTasks_spec "room" freshStore) as (_ & _ & _ & _ & Hexample).
  apply Hexample.
  - by rewrite freshStore_tasks.
  - by rewrite freshStore_tasks.
  - rewrite freshStore_tasks. by repeat constructor.
Defined.

(** ** Filters *)

Lemma filter_comm {A} (P Q : A → Prop) `{!∀ x, Decision (P x)} `{!∀ x, Decision (Q x)}
    (l : list A) :
  filter P (filter Q l) = filter Q (filter P l).
Proof.
  induction l as [|x l IH]; [done|].
  rewrite !(filter_cons _ x l).
  destruct (decide (Q x)), (decide (P x)); rewrite ?filter_cons;
    repeat case_decide; try done; by rewrite IH.
Qed.

(** C9. For every task list, every status filter ([all], [active],
    [completed], [assigned], [unassigned]) and every priority filter
    ([all] or one priority), the status pass followed by the priority pass
    gives the same list as the priority pass followed by the status
    pass. *)
Theorem filters_commute filterBy priorityFilter ts :
  applyPriorityFilter priorityFilter (applyStatusFilter filterBy ts)
  = applyStatusFilter filterBy (applyPriorityFilter priorityFilter ts).
Proof.
  destruct priorityFilter as [p|], filterBy; simpl; try done; apply filter_comm.
Qed.

(** * Further properties of the store *)

(** ** Lookups that fail *)

Lemma findTask_None st taskId :
  taskId ∉ task_id <$> tasks st → findTask st taskId = None.
Proof.
  intros Hnot. unfold findTask. apply list_find_None, Forall_forall.
  intros t Ht Hid. apply Hnot, list_elem_of_fmap. by exists t.
Qed.

Lemma workerMap_get_None st workerId :
  consistent st → workerId ∉ worker_id <$> workers st →
  workerMap_get st workerId = None.
Proof.
  intros Hcon Hnot. unfold workerMap_get.
  destruct (workerMap st !! workerId) as [j|] eqn:Hj; [|done].
  apply (con_map _ Hcon) in Hj. destruct Hnot. by eapply list_elem_of_lookup_2.
Qed.

(** X1. When no task of the store has the id, [assignTaskToWorker],
    [unassignTask] and [completeTask] all throw "Task with ID ... not
    found"; for [assignTaskToWorker] this is so whatever the worker id,
    known or not. *)
Theorem unknown_task_rejected st taskId workerId :
  taskId ∉ task_id <$> tasks st →
  assignTaskToWorker taskId workerId st = Throw (TaskNotFound taskId)
  ∧ unassignTask taskId st = Throw (TaskNotFound taskId)
  ∧ completeTask taskId st = Throw (TaskNotFound taskId).
Proof.
  intros Hnot%findTask_None.
  unfold assignTaskToWorker, unassignTask, completeTask. by rewrite Hnot.
Qed.

Lemma unknown_task_rejected_witness :
  assignTaskToWorker "T009" "W404" freshStore = Throw (TaskNotFound "T009")
  ∧ unassignTask "T009" freshStore = Throw (TaskNotFound "T009")
  ∧ completeTask "T009" freshStore = Throw (TaskNotFound "T009").
Proof. apply unknown_task_rejected. by_evaluation. Defined.

Lemma unknown_worker_lookup st t workerId :
  consistent st → t ∈ tasks st → workerId ∉ worker_id <$> workers st →
  assignTaskToWorker (task_id t) workerId st = Throw (WorkerNotFound workerId).
Proof.
  intros Hcon [i Hi]%list_elem_of_lookup Hnot. unfold assignTaskToWorker.
  by rewrite (findTask_lookup st Hcon i t Hi), (workerMap_get_None st workerId Hcon Hnot).
Qed.

(** X2. For a task of a consistent store and a worker id that no worker
    carries, [assignTaskToWorker] throws "Worker with ID ... not found",
    and so does [updateWorkerAvailability]. *)
Theorem unknown_worker_rejected st t workerId b :
  consistent st → t ∈ tasks st → workerId ∉ worker_id <$> workers st →
  assignTaskToWorker (task_id t) workerId st = Throw (WorkerNotFound workerId)
  ∧ updateWorkerAvailability workerId b st = Throw (WorkerNotFound workerId).
Proof.
  intros Hcon [i Hi]%list_elem_of_lookup Hnot.
  unfold assignTaskToWorker, updateWorkerAvailability.
  by rewrite (findTask_lookup st Hcon i t Hi), (workerMap_get_None st workerId Hcon Hnot).
Qed.

Lemma unknown_worker_rejected_witness :
  assignTaskToWorker "T001" "W404" freshStore = Throw (WorkerNotFound "W404")
  ∧ updateWorkerAvailability "W404" false freshStore = Throw (WorkerNotFound "W404").
Proof.
  apply (unknown_worker_rejected freshStore cleanRoom "W404" false).
  - apply freshStore_wf.
  - rewrite freshStore_tasks. left.
  - by_evaluation.
Defined.

(** ** Availability *)

Lemma updateWorkerAvailability_eval st j w b :
  consistent st → workers st !! j = Some w →
  updateWorkerAvailability (worker_id w) b st
  = Ok (with_workers (alter (set_availability b) j (workers st)) st).
Proof.
  intros Hcon Hj. unfold updateWorkerAvailability.
  by rewrite (workerMap_get_lookup st Hcon j w Hj).
Qed.

Lemma alter_lookup_insert {A} (f : A → A) j (l : list A) x :
  l !! j = Some x → alter f j l = <[j := f x]> l.
Proof.
  intros Hj. apply list_eq. intros k. destruct (decide (k = j)) as [->|Hne].
  - rewrite list_lookup_alter_eq, Hj, list_lookup_insert_eq; [done|].
    by eapply lookup_lt_Some.
  - by rewrite list_lookup_alter_ne, list_lookup_insert_ne.
Qed.

(** X3. Marking a worker of a consistent store unavailable succeeds and
    changes nothing but that worker's flag: its id, name and hours, the
    other workers, the tasks, the id map and the two counters are as
    before, and every other worker is still found unchanged under its id.
    From then on every assignment of a task of the store to that worker
    throws "Worker ... is not available", whatever its hours: the
    availability test comes before the capacity test. *)
Theorem unavailable_worker_blocks_assignment st w :
  consistent st → w ∈ workers st →
  ∃ j st',
    workers st !! j = Some w
    ∧ updateWorkerAvailability (worker_id w) false st = Ok st'
    ∧ workers st' = <[j := set_availability false w]> (workers st)
    ∧ set_availability false w
      = {| worker_id := worker_id w; worker_name := worker_name w;
           availability := false; totalAssignedHours := totalAssignedHours w |}
    ∧ tasks st' = tasks st
    ∧ workerMap st' = workerMap st
    ∧ nextWorkerId st' = nextWorkerId st
    ∧ nextTaskId st' = nextTaskId st
    ∧ getWorkerById st' (worker_id w) = Some (set_availability false w)
    ∧ (∀ w0, w0 ∈ workers st → worker_id w0 ≠ worker_id w →
             getWorkerById st' (worker_id w0) = Some w0)
    ∧ ∀ t, t ∈ tasks st →
        assignTaskToWorker (task_id t) (worker_id w) st'
        = Throw (WorkerNotAvailable (worker_name w)).
Proof.
  intros Hcon [j Hj]%list_elem_of_lookup.
  pose proof (updateWorkerAvailability_eval st j w false Hcon Hj) as Hop.
  pose proof (updateWorkerAvailability_consistent _ _ _ _ Hcon Hop) as Hcon'.
  eexists j, _. split; [done|]. split; [exact Hop|].
  assert (workers (with_workers (alter (set_availability false) j (workers st)) st)
            !! j = Some (set_availability false w)) as Hj'.
  { simpl. by rewrite list_lookup_alter_eq, Hj. }
  split_and!.
  - simpl. by apply alter_lookup_insert.
  - done.
  - done.
  - done.
  - done.
  - done.
  - unfold getWorkerById.
    pose proof (workerMap_get_lookup _ Hcon' j (set_availability false w) Hj') as Hg.
    change (worker_id (set_availability false w)) with (worker_id w) in Hg.
    by rewrite Hg.
  - intros w0 [k Hk]%list_elem_of_lookup Hne. unfold getWorkerById.
    erewrite (workerMap_get_lookup _ Hcon' k w0); [done|].
    simpl. rewrite list_lookup_alter_ne; [done|]. intros ->. congruence.
  - intros t [i Hi]%list_elem_of_lookup.
    pose proof (assign_eval _ i t j (set_availability false w) Hcon' Hi Hj') as Hg.
    change (worker_id (set_availability false w)) with (worker_id w) in Hg.
    by rewrite Hg.
Qed.

Lemma unavailable_worker_blocks_assignment_witness :
  ∃ j st',
    workers freshStore !! j = Some (bob 0)
    ∧ updateWorkerAvailability "W002" false freshStore = Ok st'
    ∧ workers st' = <[j := set_availability false (bob 0)]> (workers freshStore)
    ∧ set_availability false (bob 0)
      = {| worker_id := "W002"; worker_name := "Bob";
           availability := false; totalAssignedHours := 0 |}
    ∧ tasks st' = tasks freshStore
    ∧ workerMap st' = workerMap freshStore
    ∧ nextWorkerId st' = nextWorkerId freshStore
    ∧ nextTaskId st' = nextTaskId freshStore
    ∧ getWorkerById st' "W002" = Some (set_availability false (bob 0))
    ∧ (∀ w0, w0 ∈ workers freshStore → worker_id w0 ≠ "W002" →
             getWorkerById st' (worker_id w0) = Some w0)
    ∧ ∀ t, t ∈ tasks freshStore →
        assignTaskToWorker (task_id t) "W002" st' = Throw (WorkerNotAvailable "Bob").
Proof.
  apply (unavailable_worker_blocks_assignment freshStore (bob 0)).
  - apply freshStore_wf.
  - rewrite freshStore_workers. right. left.
Defined.

(** ** Assign and unassign *)

Lemma set_assignedTo_back t a :
  set_assignedTo (assignedTo t) (set_assignedTo a t) = t.
Proof. by destruct t. Qed.

(** Charging and crediting the same half hours leaves the record as it
    was. *)
Lemma sub_add_hours h w :
  halfHourEstimate h → halfHourTotal (totalAssignedHours w) →
  sub_hours h (add_hours h w) = w.
Proof.
  intros (e & He & ->) (u & Hu & Hw).
  destruct w as [i n a t]. unfold add_hours, sub_hours, set_totalAssignedHours; simpl in *.
  f_equal. rewrite Hw, halfHours_add, halfHours_sub by lia. f_equal. lia.
Qed.

Lemma alter_fixed {A} (f : A → A) j (l : list A) x :
  l !! j = Some x → f x = x → alter f j l = l.
Proof.
  intros Hj Hx. rewrite (alter_lookup_insert f j l x Hj), Hx.
  by apply list_insert_id.
Qed.

Lemma creditPrevious_unassigned st t :
  assignedTo t = None → creditPrevious st t = workers st.
Proof. intros Ha. unfold creditPrevious. by rewrite Ha. Qed.

Lemma state_ext st1 st2 :
  workers st1 = workers st2 → tasks st1 = tasks st2 →
  workerMap st1 = workerMap st2 →
  nextWorkerId st1 = nextWorkerId st2 → nextTaskId st1 = nextTaskId st2 →
  st1 = st2.
Proof. destruct st1, st2; simpl. by intros -> -> -> -> ->. Qed.

(** X4. Let the estimate of an unassigned task of a consistent store be
    a multiple of half an hour between 0.5 and 8, and let the worker hold
    a multiple of half an hour up to 8.  Assigning the task to the worker
    and then unassigning it gives back the store one started from: the
    task is unassigned again and the worker's hours are what they were. *)
Theorem assign_then_unassign_restores st t w st' :
  consistent st → t ∈ tasks st → w ∈ workers st → assignedTo t = None →
  halfHourEstimate (timeEstimate t) → halfHourTotal (totalAssignedHours w) →
  assignTaskToWorker (task_id t) (worker_id w) st = Ok st' →
  unassignTask (task_id t) st' = Ok st.
Proof.
  intros Hcon Ht Hw Hnone Hest Htotal Hop.
  pose proof (assign_consistent st Hcon _ _ _ Hop) as Hcon'.
  destruct (proj1 (list_elem_of_lookup _ _) Ht) as [i Hi].
  destruct (proj1 (list_elem_of_lookup _ _) Hw) as [j Hj].
  rewrite (assign_eval st i t j w Hcon Hi Hj) in Hop.
  destruct (negb _); [done|]. destruct (_ <? _); [done|].
  injection Hop as <-. rewrite (creditPrevious_unassigned st t Hnone) in *.
  set (t' := set_assignedTo (Some (worker_id w)) t) in *.
  set (st' := with_tasks _ _) in *.
  assert (tasks st' !! i = Some t') as Hi'.
  { simpl. apply list_lookup_insert_eq. by eapply lookup_lt_Some. }
  unfold unassignTask.
  pose proof (findTask_lookup st' Hcon' i t' Hi') as Hf.
  change (task_id t') with (task_id t) in Hf. rewrite Hf.
  assert (t' ∈ tasks st') as Ht' by by eapply list_elem_of_lookup_2.
  change (truthy (assignedTo t')) with (truthy (Some (worker_id w))).
  rewrite (owner_truthy st' Hcon' t' (worker_id w) Ht' eq_refl).
  unfold creditPrevious. change (assignedTo t') with (Some (worker_id w)).
  cbv beta iota.
  rewrite (owner_truthy st' Hcon' t' (worker_id w) Ht' eq_refl).
  change (workerMap st') with (workerMap st).
  rewrite (workerMap_lookup st Hcon j w Hj).
  f_equal. apply state_ext; simpl; [| |done..].
  - rewrite list_alter_alter_eq. apply (alter_fixed _ _ _ w Hj).
    by apply sub_add_hours.
  - rewrite list_insert_insert_eq. apply list_insert_id.
    rewrite Hi. f_equal. rewrite <-Hnone. unfold t'. by rewrite set_assignedTo_back.
Qed.

Lemma assign_then_unassign_restores_witness :
  unassignTask "T001" busyStore = Ok freshStore.
Proof.
  apply (assign_then_unassign_restores freshStore cleanRoom (ann 0) busyStore).
  - apply freshStore_wf.
  - rewrite freshStore_tasks. left.
  - rewrite freshStore_workers. left.
  - reflexivity.
  - exists 10%nat. split; [lia|by_evaluation].
  - exists 0%nat. split; [lia|by_evaluation].
  - reflexivity.
Defined.

(** Off the half hours the round trip need not close: Ann holds the task
    of 0.5 hours, takes the task of 0.6 hours and gives it back, and
    0.5 + 0.6 - 0.6 is above 0.5 in binary64 arithmetic. *)
Example assign_then_unassign_drifts :
  totalAssignedHours <$> workers (run [OpAssign "T001" "W001"] shortTasksStore)
  = [0 + 5 / 10]
  ∧ totalAssignedHours
      <$> workers (run [OpAssign "T001" "W001"; OpAssign "T002" "W001";
                        OpUnassign "T002"] shortTasksStore)
    = [0 + 5 / 10 + 6 / 10 - 6 / 10]
  ∧ 0 + 5 / 10 < 0 + 5 / 10 + 6 / 10 - 6 / 10.
Proof. split_and!; by_evaluation. Qed.

(** X5. [unassignTask] is idempotent on a consistent store: a second call
    for the same task succeeds and changes nothing (an unassigned task is
    left alone, and no hours are subtracted twice). *)
Theorem unassign_twice st taskId st' :
  consistent st → unassignTask taskId st = Ok st' →
  unassignTask taskId st' = Ok st'.
Proof.
  intros Hcon Hop.
  pose proof (unassign_consistent st Hcon _ _ Hop) as Hcon'.
  apply (unassign_Ok st Hcon) in Hop as (i & task & Hi & <- & [[Hnone ->]|[_ ->]]).
  - unfold unassignTask. by rewrite (findTask_lookup st Hcon i task Hi), Hnone.
  - set (st' := with_tasks _ _) in *.
    assert (tasks st' !! i = Some (set_assignedTo None task)) as Hi'.
    { simpl. apply list_lookup_insert_eq. by eapply lookup_lt_Some. }
    unfold unassignTask.
    pose proof (findTask_lookup st' Hcon' i _ Hi') as Hf.
    change (task_id (set_assignedTo None task)) with (task_id task) in Hf.
    by rewrite Hf.
Qed.

Lemma unassign_twice_witness :
  unassignTask "T001" freshStore = Ok freshStore.
Proof.
  apply (unassign_twice busyStore "T001" freshStore).
  - apply busyStore_wf.
  - by_evaluation.
Defined.

(** X6. [completeTask] is idempotent on a consistent store: completing a
    task that the first call completed succeeds and changes nothing. *)
Theorem complete_twice st taskId st' :
  consistent st → completeTask taskId st = Ok st' →
  completeTask taskId st' = Ok st'.
Proof.
  intros Hcon Hop.
  pose proof (complete_consistent st Hcon _ _ Hop) as Hcon'.
  apply complete_Ok in Hop as (i & task & Hi & <- & ->).
  set (st' := with_tasks _ _) in *.
  assert (tasks st' !! i = Some (set_completed true task)) as Hi'.
  { simpl. apply list_lookup_insert_eq. by eapply lookup_lt_Some. }
  change (task_id task) with (task_id (set_completed true task)).
  rewrite (complete_eval st' i _ Hcon' Hi'). f_equal.
  apply state_ext; simpl; [done| |done..].
  by rewrite list_insert_insert_eq.
Qed.

Lemma complete_twice_witness :
  completeTask "T003" (orElse freshStore (completeTask "T003" freshStore))
  = Ok (orElse freshStore (completeTask "T003" freshStore)).
Proof.
  apply (complete_twice freshStore "T003").
  - apply freshStore_wf.
  - reflexivity.
Defined.

(** X7. The [completed] flag guards nothing: a task bound to a worker can
    be completed and then unassigned; both calls succeed, the task ends
    completed and unassigned, and the worker gets the task's hours back. *)
Theorem completed_task_can_be_unassigned st t w :
  consistent st → t ∈ tasks st → w ∈ workers st →
  assignedTo t = Some (worker_id w) →
  ∃ st1 st2 i,
    completeTask (task_id t) st = Ok st1
    ∧ unassignTask (task_id t) st1 = Ok st2
    ∧ tasks st2 !! i = Some (set_assignedTo None (set_completed true t))
    ∧ totalAssignedHours <$> getWorkerById st2 (worker_id w)
      = Some (totalAssignedHours w - timeEstimate t).
Proof.
  intros Hcon [i Hi]%list_elem_of_lookup [j Hj]%list_elem_of_lookup Howner.
  pose proof (complete_eval st i t Hcon Hi) as Hop1.
  pose proof (complete_consistent st Hcon _ _ Hop1) as Hcon1.
  set (st1 := with_tasks _ _) in *.
  set (t1 := set_completed true t) in *.
  assert (tasks st1 !! i = Some t1) as Hi1.
  { simpl. apply list_lookup_insert_eq. by eapply lookup_lt_Some. }
  assert (t1 ∈ tasks st1) as Ht1 by by eapply list_elem_of_lookup_2.
  assert (unassignTask (task_id t) st1
          = Ok (with_tasks (<[i := set_assignedTo None t1]> (tasks st1))
                  (with_workers (creditPrevious st1 t1) st1))) as Hop2.
  { unfold unassignTask. change (task_id t) with (task_id t1).
    rewrite (findTask_lookup st1 Hcon1 i t1 Hi1).
    change (assignedTo t1) with (assignedTo t). rewrite Howner.
    by rewrite (owner_truthy st1 Hcon1 t1 (worker_id w) Ht1 Howner). }
  eexists st1, _, i. split_and!; [done|exact Hop2| |].
  - simpl. apply list_lookup_insert_eq. rewrite length_insert. by eapply lookup_lt_Some.
  - unfold getWorkerById, workerMap_get; simpl.
    rewrite (workerMap_lookup st Hcon j w Hj).
    rewrite (creditPrevious_lookup st1 Hcon1 t1 j w Ht1 Hj). simpl.
    unfold afterUnassign. change (assignedTo t1) with (assignedTo t).
    by rewrite decide_True.
Qed.

Lemma completed_task_can_be_unassigned_witness :
  ∃ st1 st2 i,
    completeTask "T001" busyStore = Ok st1
    ∧ unassignTask "T001" st1 = Ok st2
    ∧ tasks st2 !! i
      = Some (set_assignedTo None
                (set_completed true (set_assignedTo (Some "W001") cleanRoom)))
    ∧ totalAssignedHours <$> getWorkerById st2 "W001" = Some (5 - 5).
Proof.
  apply (completed_task_can_be_unassigned busyStore
           (set_assignedTo (Some "W001") cleanRoom) (ann 5)).
  - apply busyStore_wf.
  - rewrite busyStore_tasks. left.
  - rewrite busyStore_workers. left.
  - reflexivity.
Defined.

(** ** The registry *)

Lemma worker_ids_NoDup st : consistent st → NoDup (worker_id <$> workers st).
Proof.
  intros Hcon. apply NoDup_alt. intros j k id Hj Hk.
  apply (con_map _ Hcon) in Hj, Hk. congruence.
Qed.

(** X8. [addWorker] on a well-formed store issues an id that no worker of
    the store carries; the new worker is found under that id, is available
    with 0 hours and is listed by [getAvailableWorkers]; every worker that
    was registered is still found, unchanged, under its id. *)
Theorem addWorker_registers name st :
  wf st →
  (worker_id (addWorker name st).1 ∉ worker_id <$> workers st)
  ∧ getWorkerById (addWorker name st).2 (worker_id (addWorker name st).1)
    = Some (addWorker name st).1
  ∧ (addWorker name st).1 ∈ getAvailableWorkers (addWorker name st).2
  ∧ ∀ w, w ∈ workers st →
         getWorkerById (addWorker name st).2 (worker_id w) = Some w.
Proof.
  intros Hwf. pose proof (addWorker_wf name st Hwf) as [Hcon' _].
  destruct Hwf as [Hcon Hiss]. pose proof (addWorker_fresh st Hiss) as Hfresh.
  split_and!.
  - done.
  - unfold getWorkerById.
    erewrite (workerMap_get_lookup _ Hcon' (length (workers st))); [done|].
    simpl. by apply list_lookup_middle.
  - unfold getAvailableWorkers. apply list_elem_of_filter. split.
    + split; [done|]. by_evaluation.
    + simpl. apply elem_of_app. right. left.
  - intros w [j Hj]%list_elem_of_lookup. unfold getWorkerById.
    erewrite (workerMap_get_lookup _ Hcon' j w); [done|].
    simpl. by apply lookup_app_l_Some.
Qed.

Lemma addWorker_registers_witness :
  (worker_id (addWorker "Cy" freshStore).1 ∉ worker_id <$> workers freshStore)
  ∧ getWorkerById (addWorker "Cy" freshStore).2
      (worker_id (addWorker "Cy" freshStore).1)
    = Some (addWorker "Cy" freshStore).1
  ∧ (addWorker "Cy" freshStore).1 ∈ getAvailableWorkers (addWorker "Cy" freshStore).2
  ∧ ∀ w, w ∈ workers freshStore →
         getWorkerById (addWorker "Cy" freshStore).2 (worker_id w) = Some w.
Proof. apply addWorker_registers, freshStore_wf. Defined.

(** X9. In every store built from the empty one by the module's
    operations, worker ids are pairwise distinct, task ids are pairwise
    distinct, every id was issued by the allocator below the current
    counter, and every task's [assignedTo] is [null] or the id of a
    registered worker. *)
Theorem reachable_store_ids ops :
  NoDup (worker_id <$> workers (run ops initialState))
  ∧ NoDup (task_id <$> tasks (run ops initialState))
  ∧ (∀ w, w ∈ workers (run ops initialState) →
          ∃ n, (n < nextWorkerId (run ops initialState))%nat
               ∧ worker_id w = workerIdOf n)
  ∧ (∀ t, t ∈ tasks (run ops initialState) →
          ∃ n, (n < nextTaskId (run ops initialState))%nat
               ∧ task_id t = taskIdOf n)
  ∧ (∀ t wid, t ∈ tasks (run ops initialState) → assignedTo t = Some wid →
              ∃ w, w ∈ workers (run ops initialState) ∧ worker_id w = wid).
Proof.
  destruct (reachable_wf ops) as [Hcon Hiss]. split_and!.
  - by apply worker_ids_NoDup.
  - apply (con_task_ids _ Hcon).
  - intros w Hw. apply (iss_workers _ Hiss), list_elem_of_fmap. by exists w.
  - intros t Ht. apply (iss_tasks _ Hiss), list_elem_of_fmap. by exists t.
  - intros t wid Ht Ha.
    pose proof (con_owner _ Hcon t wid Ht Ha) as (w & -> & Hw)%list_elem_of_fmap.
    by exists w.
Qed.

(** ** The task store *)

(** X10. [addTask] on a well-formed store issues an id that no task of
    the store carries; the new task is the one [find] returns for that id,
    it is appended to the list of unassigned tasks, and the workers are
    untouched. *)
Theorem addTask_lists_task desc p estimate dl now st task st' :
  wf st → addTask desc p estimate dl now st = Ok (task, st') →
  (task_id task ∉ task_id <$> tasks st)
  ∧ findTask st' (task_id task) = Some (length (tasks st), task)
  ∧ getUnassignedTasks st' = getUnassignedTasks st ++ [task]
  ∧ workers st' = workers st.
Proof.
  intros Hwf Hop. pose proof (addTask_wf _ _ _ _ _ _ _ _ Hwf Hop) as [Hcon' _].
  destruct Hwf as [Hcon Hiss]. pose proof (addTask_fresh st Hiss) as Hfresh.
  injection Hop as <- <-. split_and!.
  - done.
  - apply (findTask_lookup _ Hcon'). simpl. by apply list_lookup_middle.
  - unfold getUnassignedTasks; simpl. rewrite filter_app. f_equal.
  - done.
Qed.

Lemma addTask_lists_task_witness :
  (task_id mopRoom ∉ task_id <$> tasks twoTaskStore)
  ∧ findTask freshStore (task_id mopRoom) = Some (length (tasks twoTaskStore), mopRoom)
  ∧ getUnassignedTasks freshStore = getUnassignedTasks twoTaskStore ++ [mopRoom]
  ∧ workers freshStore = workers twoTaskStore.
Proof.
  apply (addTask_lists_task "Mop Room 202" low 4 "2024-01-01"
           "2024-01-01T08:02:00.000Z" twoTaskStore).
  - apply reachable_wf.
  - by_evaluation.
Defined.

(** ** Who can take a task *)

Lemma halfHours_le a b :
  (a ≤ 32)%nat → (b ≤ 32)%nat → halfHours a ≤ halfHours b → (a ≤ b)%nat.
Proof.
  intros Ha Hb Hle.
  assert (forallb (λ a, forallb (λ b,
            bool_decide ((halfHours a <=? halfHours b) = bool_decide (a ≤ b)%nat))
            (seq 0 33)) (seq 0 33) = true) as Hall by (vm_compute; reflexivity).
  apply (forall_below 33) with (k := a) in Hall; [|lia].
  apply (forall_below 33) with (k := b) in Hall; [|lia].
  apply bool_decide_eq_true_1 in Hall. rewrite Hle in Hall.
  symmetry in Hall. by apply bool_decide_eq_true_1 in Hall.
Qed.

(** X11. Let worker [w] of a consistent store hold a multiple of half an
    hour up to 8 and let the estimate of task [t] be a multiple of half
    an hour between 0.5 and 8.  If [getAvailableWorkers] does not list
    [w], then [assignTaskToWorker(t.id, w.id)] throws (the worker is
    unavailable or would exceed the maximum); if it lists [w] and the
    estimate fits in the remaining hours, the call succeeds.  A worker is
    listed exactly when it is available and holds strictly less than 8
    hours. *)
Theorem getAvailableWorkers_assignable st w t :
  consistent st → w ∈ workers st → t ∈ tasks st →
  halfHourTotal (totalAssignedHours w) → halfHourEstimate (timeEstimate t) →
  (w ∈ getAvailableWorkers st
   ↔ availability w = true ∧ totalAssignedHours w < MAX_WORK_HOURS_PER_DAY)
  ∧ (w ∉ getAvailableWorkers st →
     assignTaskToWorker (task_id t) (worker_id w) st
       = Throw (WorkerNotAvailable (worker_name w))
     ∨ assignTaskToWorker (task_id t) (worker_id w) st
       = Throw (WouldExceedMaximumHours (worker_name w)))
  ∧ (w ∈ getAvailableWorkers st →
     timeEstimate t ≤ MAX_WORK_HOURS_PER_DAY - totalAssignedHours w →
     ∃ st', assignTaskToWorker (task_id t) (worker_id w) st = Ok st').
Proof.
  intros Hcon Hw Ht (u & Hu & Htotal) (e & He & Hest).
  assert (w ∈ getAvailableWorkers st
          ↔ availability w = true ∧ totalAssignedHours w < MAX_WORK_HOURS_PER_DAY)
    as Hlisted.
  { unfold getAvailableWorkers. rewrite list_elem_of_filter. tauto. }
  destruct (proj1 (list_elem_of_lookup _ _) Ht) as [i Hi].
  destruct (proj1 (list_elem_of_lookup _ _) Hw) as [j Hj].
  rewrite (assign_eval st i t j w Hcon Hi Hj).
  split_and!; [done| |].
  - intros Hnot. destruct (availability w) eqn:Hav; simpl; [|by left]. right.
    rewrite Htotal, Hest, halfHours_add, halfHours_exceeds by lia.
    rewrite bool_decide_eq_true_2; [done|].
    assert (¬ (u < 16)%nat); [|lia].
    intros Hlt. apply Hnot, Hlisted. split; [done|]. rewrite Htotal.
    destruct (halfHours_range u Hu) as (_ & _ & -> & _). by apply bool_decide_eq_true_2.
  - intros [Hav _]%Hlisted Hfits. rewrite Hav. simpl.
    rewrite Htotal, Hest in Hfits |- *.
    change MAX_WORK_HOURS_PER_DAY with (halfHours 16) in Hfits.
    rewrite halfHours_sub in Hfits by lia.
    apply halfHours_le in Hfits; [|lia..].
    rewrite halfHours_add, halfHours_exceeds by lia.
    rewrite bool_decide_eq_false_2 by lia. by eexists.
Qed.

Lemma getAvailableWorkers_assignable_witness :
  (ann 5 ∈ getAvailableWorkers busyStore
   ↔ true = true ∧ 5 < MAX_WORK_HOURS_PER_DAY)
  ∧ (ann 5 ∉ getAvailableWorkers busyStore →
     assignTaskToWorker "T002" "W001" busyStore = Throw (WorkerNotAvailable "Ann")
     ∨ assignTaskToWorker "T002" "W001" busyStore
       = Throw (WouldExceedMaximumHours "Ann"))
  ∧ (ann 5 ∈ getAvailableWorkers busyStore →
     3 ≤ MAX_WORK_HOURS_PER_DAY - 5 →
     ∃ st', assignTaskToWorker "T002" "W001" busyStore = Ok st').
Proof.
  apply (getAvailableWorkers_assignable busyStore (ann 5) vacuumHallway).
  - apply busyStore_wf.
  - rewrite busyStore_workers. left.
  - rewrite busyStore_tasks. right. left.
  - exists 10%nat. split; [lia|by_evaluation].
  - exists 6%nat. split; [lia|by_evaluation].
Defined.

(** Off the half hours a worker that is not listed can still take a task:
    in [fullDayStore] Ann holds 8 hours and is not listed, and yet the
    task of 2^-50 hours is assigned to her, since 8 + 2^-50 is 8 in
    binary64 arithmetic. *)
Example full_worker_takes_tiny_task :
  workers fullDayStore = [ann 8]
  ∧ getAvailableWorkers fullDayStore = []
  ∧ 0 < timeEstimate dustLamp
  ∧ ∃ st', assignTaskToWorker "T002" "W001" fullDayStore = Ok st'
           ∧ workers st' = [ann 8].
Proof.
  split_and!; [by_evaluation..|]. eexists. split; [reflexivity|]. by_evaluation.
Qed.

(** ** Identifier formats *)

Lemma isDigit_digitChars c : isDigit c = true → c ∈ digitChars.
Proof.
  destruct c as [[] [] [] [] [] [] [] []]; intros Hd;
    first [ discriminate Hd | apply list_elem_of_In; vm_compute; tauto ].
Qed.

Lemma digits_below_1000 a b c :
  a ∈ digitChars → b ∈ digitChars → c ∈ digitChars →
  threeDigitsBelow1000 a b c = true.
Proof.
  intros Ha%list_elem_of_In Hb%list_elem_of_In Hc%list_elem_of_In.
  assert (forallb (λ a, forallb (λ b, forallb (threeDigitsBelow1000 a b)
                                        digitChars) digitChars) digitChars = true)
    as Hall by (vm_compute; reflexivity).
  rewrite forallb_forall in Hall. specialize (Hall a Ha).
  rewrite forallb_forall in Hall. specialize (Hall b Hb).
  rewrite forallb_forall in Hall. by apply Hall.
Qed.

Lemma three_digits_parse p a b c :
  isDigit a && isDigit b && isDigit c = true →
  ∃ k, parseSequence (String p (String a (String b (String c EmptyString)))) = Some k
       ∧ (k < 1000)%nat.
Proof.
  intros [[Ha Hb]%andb_true_iff Hc]%andb_true_iff.
  pose proof (digits_below_1000 a b c (isDigit_digitChars a Ha)
                (isDigit_digitChars b Hb) (isDigit_digitChars c Hc)) as Hk.
  unfold threeDigitsBelow1000 in Hk.
  change (parseSequence (String p (String a (String b (String c EmptyString)))))
    with (parseSequence (String "W" (String a (String b (String c EmptyString))))).
  destruct (parseSequence _) as [k|]; [|done].
  exists k. split; [done|]. by apply bool_decide_eq_true_1 in Hk.
Qed.

Lemma issued_ids_validate n :
  (n < 1000)%nat →
  validateWorkerId (workerIdOf n) = true ∧ validateTaskId (taskIdOf n) = true.
Proof.
  intros Hn.
  assert (forallb (λ n, validateWorkerId (workerIdOf n) && validateTaskId (taskIdOf n))
                  (seq 0 1000) = true) as Hall by (vm_compute; reflexivity).
  rewrite forallb_forall in Hall.
  apply andb_true_iff, Hall, in_seq. lia.
Qed.

(** X12. The ids the allocator issues pass the module's own format checks
    only up to sequence number 999: [validateWorkerId] accepts the id made
    from [n] if and only if [n < 1000], and likewise [validateTaskId]; from
    the thousandth worker or task on, the issued id has four digits and
    is refused. *)
Theorem validate_issued_ids n :
  (validateWorkerId (workerIdOf n) = true ↔ (n < 1000)%nat)
  ∧ (validateTaskId (taskIdOf n) = true ↔ (n < 1000)%nat).
Proof.
  split; (split; [|by intros Hn; apply (issued_ids_validate n Hn)]).
  - unfold workerIdOf. change ("W" +:+ ?s) with (String "W" s).
    intros Hv.
    pose proof (parseSequence_padded "W" n) as Hparse.
    destruct (padStart 3 "0" (String_of_nat n)) as [|a [|b [|c [|]]]]; try done.
    apply andb_true_iff in Hv as [Hv Hc]. apply andb_true_iff in Hv as [Hv Hb].
    apply andb_true_iff in Hv as [_ Ha].
    destruct (three_digits_parse "W" a b c) as (k & Hk & Hlt).
    { by rewrite Ha, Hb, Hc. }
    congruence.
  - unfold taskIdOf. change ("T" +:+ ?s) with (String "T" s).
    intros Hv.
    pose proof (parseSequence_padded "T" n) as Hparse.
    destruct (padStart 3 "0" (String_of_nat n)) as [|a [|b [|c [|]]]]; try done.
    apply andb_true_iff in Hv as [Hv Hc]. apply andb_true_iff in Hv as [Hv Hb].
    apply andb_true_iff in Hv as [_ Ha].
    destruct (three_digits_parse "T" a b c) as (k & Hk & Hlt).
    { by rewrite Ha, Hb, Hc. }
    congruence.
Qed.

Example thousandth_worker_id_refused :
  workerIdOf 1000 = "W1000" ∧ validateWorkerId (workerIdOf 1000) = false.
Proof. done. Qed.

(** ** Loading a snapshot *)

(** Where [indexWorkers] sends an id: to the last position that carries
    it, or to what the map held when no position does. *)
Lemma indexWorkers_lookup ws j m id k :
  indexWorkers j ws m !! id = Some k
  ↔ (∃ i w, ws !! i = Some w ∧ worker_id w = id ∧ k = (j + i)%nat
            ∧ ∀ i' w', (i < i')%nat → ws !! i' = Some w' → worker_id w' ≠ id)
    ∨ ((id ∉ worker_id <$> ws) ∧ m !! id = Some k).
Proof.
  revert j m. induction ws as [|w0 ws IH]; intros j m; simpl.
  - split.
    + intros Hm. right. split; [|done]. by intros ?%elem_of_nil.
    + intros [(i & w & Hi & _)|[_ Hm]]; [done|done].
  - rewrite IH. split.
    + intros [(i & w & Hi & Hid & -> & Hlast)|[Hnot Hm]].
      * left. exists (S i), w. split_and!; [done|done|lia|].
        intros [|i'] w' Hlt Hi'; [lia|]. apply (Hlast i' w'); [lia|done].
      * destruct (decide (worker_id w0 = id)) as [Heq|Hne].
        -- rewrite Heq, lookup_insert_eq in Hm. injection Hm as <-.
           left. exists 0%nat, w0. split_and!; [done|done|lia|].
           intros [|i'] w' Hlt Hi'; [lia|]. simpl in Hi'. intros Hid.
           apply Hnot, list_elem_of_fmap. exists w'.
           split; [done|]. by eapply list_elem_of_lookup_2.
        -- rewrite lookup_insert_ne in Hm by done. right. split; [|done].
           rewrite not_elem_of_cons. done.
    + intros [(i & w & Hi & Hid & -> & Hlast)|[Hnot Hm]].
      * destruct i as [|i]; simpl in Hi.
        -- injection Hi as ->. right. split.
           ++ intros (w' & Hw' & [i' Hi']%list_elem_of_lookup)%list_elem_of_fmap.
              apply (Hlast (S i') w'); [lia|done|congruence].
           ++ rewrite Hid, lookup_insert_eq. f_equal. lia.
        -- left. exists i, w. split_and!; [done|done|lia|].
           intros i' w' Hlt Hi'. apply (Hlast (S i') w'); [lia|done].
      * apply not_elem_of_cons in Hnot as [Hne Hnot]. right. split; [done|].
        by rewrite lookup_insert_ne.
Qed.

Lemma indexWorkers_NoDup ws id k :
  NoDup (worker_id <$> ws) →
  indexWorkers 0 ws ∅ !! id = Some k ↔ (worker_id <$> ws) !! k = Some id.
Proof.
  intros Hnd. rewrite indexWorkers_lookup, list_lookup_fmap. split.
  - intros [(i & w & Hi & Hid & -> & _)|[_ Hm]]; [|done].
    simpl. by rewrite Hi, <-Hid.
  - intros Hk. destruct (ws !! k) as [w|] eqn:Hw; [|done]. injection Hk as Hid.
    left. exists k, w. split_and!; [done..|].
    intros i' w' Hlt Hi' Hid'.
    assert (k = i'); [|lia].
    apply (NoDup_lookup _ _ _ id Hnd); rewrite list_lookup_fmap.
    + by rewrite Hw, <-Hid.
    + by rewrite Hi', <-Hid'.
Qed.

(** X13. What [saveData] writes, [initializeData] reads back: for a
    consistent store whose two counters are not 0 and whose hours and
    estimates are numbers that JSON text carries unchanged, loading the
    saved snapshot rebuilds the store exactly, the id map included,
    whatever the module held before the load. *)
Theorem save_then_initialize st st0 :
  consistent st → nextWorkerId st ≠ 0%nat → nextTaskId st ≠ 0%nat →
  jsonNumbers st →
  initializeData (Parsed (saveData st)) st0 = st.
Proof.
  intros Hcon Hnw Hnt _. apply state_ext; simpl; [done|done| | |].
  - apply map_eq. intros id. apply option_eq. intros k.
    rewrite (indexWorkers_NoDup _ _ _ (worker_ids_NoDup st Hcon)).
    symmetry. apply (con_map _ Hcon).
  - by destruct (nextWorkerId st).
  - by destruct (nextTaskId st).
Qed.

Lemma save_then_initialize_witness :
  initializeData (Parsed (saveData sharedStore)) initialState = sharedStore.
Proof.
  apply save_then_initialize.
  - apply sharedStore_wf.
  - by_evaluation.
  - by_evaluation.
  - split.
    + intros w Hw. rewrite sharedStore_workers in Hw. by members Hw.
    + intros t Ht. apply list_elem_of_In in Ht. vm_compute in Ht.
      by destruct Ht as [<-|[<-|[<-|[]]]].
Defined.


Example duplicated_id_last_wins :
  totalAssignedHours <$> getWorkerById (initializeData (Parsed twinSnapshot) initialState) "W001"
  = Some 7
  ∧ nextWorkerId (initializeData (Parsed twinSnapshot) initialState) = 1%nat.
Proof. split; by_evaluation. Qed.

(** ** Sorting by deadline, and sorting twice *)

Section deadline_order.
Context (getTime : string → option Z).

Lemma compareDeadline_valid a b x y :
  getTime (deadline a) = Some x → getTime (deadline b) = Some y →
  SortCompare (compareDeadline getTime) a b = (x - y)%Z.
Proof. intros Ha Hb. unfold SortCompare, compareDeadline. by rewrite Ha, Hb. Qed.

Lemma deadlineOrder_below a b :
  is_Some (getTime (deadline a)) → is_Some (getTime (deadline b)) →
  (SortCompare (compareDeadline getTime) a b ≤ 0)%Z → deadlineOrder getTime a b.
Proof.
  intros [x Hx] [y Hy]. rewrite (compareDeadline_valid a b x y) by done.
  intros Hle. exists x, y. split_and!; [done..|lia].
Qed.

Lemma deadlineOrder_above a b :
  is_Some (getTime (deadline a)) → is_Some (getTime (deadline b)) →
  ¬ (SortCompare (compareDeadline getTime) a b ≤ 0)%Z → deadlineOrder getTime b a.
Proof.
  intros [x Hx] [y Hy]. rewrite (compareDeadline_valid a b x y) by done.
  intros Hle. exists y, x. split_and!; [done..|lia].
Qed.

Lemma deadlineOrder_trans a b c :
  deadlineOrder getTime a b → deadlineOrder getTime b c → deadlineOrder getTime a c.
Proof.
  intros (x & y & Hx & Hy & Hxy) (y' & z & Hy' & Hz & Hyz).
  exists x, z. split_and!; [done..|]. simplify_eq. lia.
Qed.

Lemma deadlineOrder_compare a b :
  deadlineOrder getTime a b → (SortCompare (compareDeadline getTime) a b ≤ 0)%Z.
Proof.
  intros (x & y & Hx & Hy & Hxy). rewrite (compareDeadline_valid a b x y) by done. lia.
Qed.

Lemma priorityOrder_compare a b :
  priorityOrder getTime a b → (SortCompare (comparePriority getTime) a b ≤ 0)%Z.
Proof.
  unfold SortCompare, comparePriority.
  intros [Hlt|(Heq & x & y & Hx & Hy & Hxy)]; case_decide; simpl; try lia.
  rewrite Hx, Hy. simpl. lia.
Qed.

Lemma sameDeadline_compare t a b :
  sameDeadline getTime t a → sameDeadline getTime t b →
  (SortCompare (compareDeadline getTime) a b ≤ 0)%Z.
Proof.
  unfold sameDeadline, SortCompare, compareDeadline. intros <- <-.
  destruct (getTime (deadline t)); simpl; lia.
Qed.
End deadline_order.

(** A list that is already in order comes back as it is. *)
Lemma Array_sort_sorted {A} (comparefn : A → A → option Z) (R : A → A → Prop) l :
  (∀ x y, R x y → (SortCompare comparefn x y ≤ 0)%Z) →
  StronglySorted R l → Array_sort comparefn l = l.
Proof.
  intros HR Hs. induction Hs as [|x l Hs IH Hx]; simpl; [done|].
  rewrite IH. destruct l as [|y l]; simpl; [done|].
  apply Forall_cons in Hx as [Hxy _]. by rewrite decide_True by by apply HR.
Qed.


Lemma deadlineOrder_antisym getTime a b :
  deadlineOrder getTime a b → deadlineOrder getTime b a → sameDeadline getTime a b.
Proof.
  intros (x & y & Hx & Hy & Hxy) (y' & x' & Hy' & Hx' & Hyx).
  unfold sameDeadline. simplify_eq. rewrite Hx, Hy. f_equal. lia.
Qed.

(** X15. On tasks whose deadlines are all valid dates,
    [sortTasksByDeadline] returns a rearrangement of its input in which
    every task stands before all tasks with a later deadline; tasks with
    the same deadline keep the order they had in the input; and no other
    list has these three properties.  The result is a rearrangement of
    the input whatever the deadlines. *)
Theorem sortTasksByDeadline_spec getTime ts :
  (validDeadlines getTime ts →
   StronglySorted (deadlineOrder getTime) (sortTasksByDeadline getTime ts)
   ∧ (∀ t, filter (sameDeadline getTime t) (sortTasksByDeadline getTime ts)
           = filter (sameDeadline getTime t) ts)
   ∧ ∀ sorted,
       sorted ≡ₚ ts → StronglySorted (deadlineOrder getTime) sorted →
       (∀ t, filter (sameDeadline getTime t) sorted
             = filter (sameDeadline getTime t) ts) →
       sorted = sortTasksByDeadline getTime ts)
  ∧ sortTasksByDeadline getTime ts ≡ₚ ts.
Proof.
  split; [|apply Array_sort_Permutation].
  intros Hvalid.
  assert (StronglySorted (deadlineOrder getTime) (sortTasksByDeadline getTime ts))
    as Hsorted.
  { unfold sortTasksByDeadline.
    apply (Array_sort_StronglySorted _ _ (λ t, is_Some (getTime (deadline t)))).
    - apply deadlineOrder_below.
    - apply deadlineOrder_above.
    - apply deadlineOrder_trans.
    - by apply Forall_forall. }
  assert (∀ t, filter (sameDeadline getTime t) (sortTasksByDeadline getTime ts)
               = filter (sameDeadline getTime t) ts) as Hstable.
  { intros t. apply Array_sort_filter. apply sameDeadline_compare. }
  split_and!; [done..|]. intros sorted Hperm Hsorted' Hstable'.
  apply (sorted_stable_unique (deadlineOrder getTime) (sameDeadline getTime)).
  - done.
  - apply deadlineOrder_antisym.
  - rewrite Hperm. symmetry. apply Array_sort_Permutation.
  - done.
  - done.
  - intros t. by rewrite Hstable, Hstable'.
Qed.

Lemma sortTasksByDeadline_spec_witness :
  (StronglySorted (deadlineOrder januaryDates)
     (sortTasksByDeadline januaryDates [cleanRoom; vacuumHallway; mopRoom])
   ∧ (∀ t, filter (sameDeadline januaryDates t)
             (sortTasksByDeadline januaryDates [cleanRoom; vacuumHallway; mopRoom])
           = filter (sameDeadline januaryDates t) [cleanRoom; vacuumHallway; mopRoom])
   ∧ ∀ sorted,
       sorted ≡ₚ [cleanRoom; vacuumHallway; mopRoom] →
       StronglySorted (deadlineOrder januaryDates) sorted →
       (∀ t, filter (sameDeadline januaryDates t) sorted
             = filter (sameDeadline januaryDates t) [cleanRoom; vacuumHallway; mopRoom]) →
       sorted = sortTasksByDeadline januaryDates [cleanRoom; vacuumHallway; mopRoom])
  ∧ sortTasksByDeadline januaryDates [cleanRoom; vacuumHallway; mopRoom]
    = [mopRoom; vacuumHallway; cleanRoom].
Proof.
  split.
  - apply (sortTasksByDeadline_spec januaryDates [cleanRoom; vacuumHallway; mopRoom]).
    intros t Ht. members Ht; by eexists.
  - reflexivity.
Defined.

(** With a deadline that is no date the order is lost: every comparison
    with "Wash Windows" gives [NaN], and the task due Jan 10 stays before
    the task due Jan 5. *)
Example sortTasksByDeadline_invalid_deadline :
  sortTasksByDeadline januaryDates [cleanRoom; washWindows; vacuumHallway]
  = [cleanRoom; washWindows; vacuumHallway]
  ∧ ¬ deadlineOrder januaryDates cleanRoom vacuumHallway.
Proof.
  split; [done|]. intros (x & y & Hx & Hy & Hxy).
  vm_compute in Hx, Hy. simplify_eq. lia.
Qed.

(** X16. Sorting twice is sorting once: on tasks whose deadlines are valid
    dates, applying [sortTasksByPriority] (or [sortTasksByDeadline]) to
    its own output returns that output unchanged. *)
Theorem sort_twice getTime ts :
  validDeadlines getTime ts →
  sortTasksByPriority getTime (sortTasksByPriority getTime ts)
  = sortTasksByPriority getTime ts
  ∧ sortTasksByDeadline getTime (sortTasksByDeadline getTime ts)
    = sortTasksByDeadline getTime ts.
Proof.
  intros Hvalid.
  assert (Forall (λ t, is_Some (getTime (deadline t))) ts) as Hok
    by by apply Forall_forall.
  split.
  - apply (Array_sort_sorted _ (priorityOrder getTime)).
    + apply priorityOrder_compare.
    + apply (Array_sort_StronglySorted _ _ (λ t, is_Some (getTime (deadline t))));
        [apply priorityOrder_below|apply priorityOrder_above
        |apply priorityOrder_trans|done].
  - apply (Array_sort_sorted _ (deadlineOrder getTime)).
    + apply deadlineOrder_compare.
    + apply (Array_sort_StronglySorted _ _ (λ t, is_Some (getTime (deadline t))));
        [apply deadlineOrder_below|apply deadlineOrder_above
        |apply deadlineOrder_trans|done].
Qed.

Lemma sort_twice_witness :
  sortTasksByPriority januaryDates
    (sortTasksByPriority januaryDates [cleanRoom; vacuumHallway; mopRoom])
  = sortTasksByPriority januaryDates [cleanRoom; vacuumHallway; mopRoom]
  ∧ sortTasksByDeadline januaryDates
      (sortTasksByDeadline januaryDates [cleanRoom; vacuumHallway; mopRoom])
    = sortTasksByDeadline januaryDates [cleanRoom; vacuumHallway; mopRoom].
Proof.
  apply sort_twice. intros t Ht. members Ht; by eexists.
Defined.

(** ** Searching *)

Lemma toLowerCase_app s1 s2 :
  toLowerCase (s1 +:+ s2) = toLowerCase s1 +:+ toLowerCase s2.
Proof.
  induction s1 as [|c s1 IH]; [done|].
  rewrite append_String. simpl. by rewrite IH.
Qed.

Lemma append_assoc s1 s2 s3 : (s1 +:+ s2) +:+ s3 = s1 +:+ (s2 +:+ s3).
Proof.
  induction s1 as [|c s1 IH]; [done|]. rewrite !append_String. by rewrite IH.
Qed.

Lemma ciContains_longer field pre q post :
  ciContains field (pre +:+ q +:+ post) → ciContains field q.
Proof.
  intros (a & b & Heq). rewrite !toLowerCase_app in Heq.
  exists (a +:+ toLowerCase pre), (toLowerCase post +:+ b).
  rewrite Heq. by rewrite !append_assoc.
Qed.

Lemma filter_narrow {A} (P Q : A → Prop) `{!∀ x, Decision (P x)} `{!∀ x, Decision (Q x)}
    (l : list A) :
  (∀ x, P x → Q x) → filter P l `sublist_of` filter Q l.
Proof.
  intros HPQ. induction l as [|x l IH]; [done|].
  rewrite !filter_cons. destruct (decide (P x)) as [HP|HP].
  - rewrite decide_True by by apply HPQ. by apply sublist_skip.
  - destruct (decide (Q x)); [by apply sublist_cons|done].
Qed.

(** X17. On ASCII text, typing more narrows the search: when the query
    and the searched fields of the tasks hold ASCII characters only, the
    tasks found for a query that contains [q] (with anything before and
    after it) are among the tasks found for [q], in the same order.  The
    empty query finds every task. *)
Theorem searchTasks_narrows pre q post st :
  isAscii (pre +:+ q +:+ post) = true → Forall asciiTask (tasks st) →
  searchTasks (pre +:+ q +:+ post) st `sublist_of` searchTasks q st
  ∧ searchTasks "" st = tasks st.
Proof.
  intros _ _. split.
  - unfold searchTasks. apply filter_narrow. intros t.
    rewrite !matchesQuery_spec. unfold matchesSomeField.
    intros [H|[H|(a & Ha & H)]].
    + left. by eapply ciContains_longer.
    + right; left. by eapply ciContains_longer.
    + right; right. exists a. split; [done|]. by eapply ciContains_longer.
  - unfold searchTasks. induction (tasks st) as [|t ts IH]; [done|].
    rewrite filter_cons, IH. rewrite decide_True; [done|].
    apply matchesQuery_spec. left. apply ciContains_includes, includes_empty.
Qed.

Lemma searchTasks_narrows_witness :
  searchTasks ("" +:+ "room" +:+ " 2") freshStore `sublist_of` searchTasks "room" freshStore
  ∧ searchTasks "" freshStore = tasks freshStore.
Proof.
  apply (searchTasks_narrows "" "room" " 2" freshStore).
  - reflexivity.
  - rewrite freshStore_tasks. by repeat constructor.
Defined.

Example searchTasks_narrows_example :
  description <$> searchTasks "ROOM" freshStore = ["Clean Room 101"; "Mop Room 202"]
  ∧ description <$> searchTasks "room 2" freshStore = ["Mop Room 202"]
  ∧ description <$> searchTasks "t00" freshStore
    = ["Clean Room 101"; "Vacuum Hallway"; "Mop Room 202"].
Proof. done. Qed.

(** ** The dashboard counters *)

Lemma filter_split_length {A} (P Q : A → Prop)
    `{!∀ x, Decision (P x)} `{!∀ x, Decision (Q x)} (l : list A) :
  (∀ x, P x ↔ ¬ Q x) →
  (length (filter P l) + length (filter Q l) = length l)%nat.
Proof.
  intros HPQ. induction l as [|x l IH]; [done|].
  rewrite !filter_cons. destruct (decide (P x)) as [HP|HP], (decide (Q x)) as [HQ|HQ];
    simpl; try lia.
  - by apply HPQ in HP.
  - destruct HP. by apply HPQ.
Qed.

(** X18. On the dashboard the active and the completed tasks add up to
    all tasks, and in a consistent store the number of working workers
    (the distinct owners of unfinished tasks) never exceeds the number of
    workers. *)
Theorem dashboard_counters st :
  consistent st →
  (length (activeTasks (getTasks st)) + length (completedTasks (getTasks st))
   = length (getTasks st))%nat
  ∧ (workingWorkers (getTasks st) ≤ totalWorkers (getWorkers st))%nat.
Proof.
  intros Hcon. split.
  - apply filter_split_length. intros t. by destruct (completed t).
  - unfold workingWorkers, totalWorkers, getTasks, getWorkers.
    rewrite <-(length_fmap worker_id), <-(length_fmap Some).
    rewrite <-(size_list_to_set (C := gset (option string))).
    + apply subseteq_size. intros a.
      rewrite !elem_of_list_to_set.
      intros (t & -> & [[Htruthy _] Ht]%list_elem_of_filter)%list_elem_of_fmap.
      destruct (assignedTo t) as [wid|] eqn:Ha; [|done].
      apply list_elem_of_fmap. exists wid. split; [done|].
      by apply (con_owner _ Hcon t).
    + apply (NoDup_fmap_2 _). by apply worker_ids_NoDup.
Qed.

Lemma dashboard_counters_witness :
  (length (activeTasks (getTasks sharedStore))
   + length (completedTasks (getTasks sharedStore))
   = length (getTasks sharedStore))%nat
  ∧ (workingWorkers (getTasks sharedStore) ≤ totalWorkers (getWorkers sharedStore))%nat.
Proof. apply dashboard_counters, sharedStore_wf. Defined.

Example dashboard_counts_owners_once :
  workingWorkers (tasks (run [OpAssign "T002" "W001"] busyStore)) = 1%nat
  ∧ workingWorkers (tasks sharedStore) = 2%nat
  ∧ workingWorkers (tasks (run [OpComplete "T001"] sharedStore)) = 1%nat.
Proof. split_and!; by_evaluation. Qed.

(** ** The filter and sort pipeline *)

Lemma filter_keeps_all {A} (P : A → Prop) `{!∀ x, Decision (P x)} (l : list A) :
  (∀ x, P x) → filter P l = l.
Proof.
  intros HP. induction l as [|x l IH]; [done|].
  by rewrite filter_cons, decide_True, IH.
Qed.

Lemma applyStatusFilter_filter filterBy ts :
  applyStatusFilter filterBy ts = filter (passesStatus filterBy) ts.
Proof.
  destruct filterBy; simpl; try done.
  symmetry. by apply filter_keeps_all.
Qed.

Lemma applyPriorityFilter_filter priorityFilter ts :
  applyPriorityFilter priorityFilter ts = filter (passesPriority priorityFilter) ts.
Proof.
  destruct priorityFilter; simpl; [done|].
  symmetry. by apply filter_keeps_all.
Qed.

Lemma applySorting_Permutation getTime sortBy ts :
  applySorting getTime sortBy ts ≡ₚ ts.
Proof. destruct sortBy; simpl; try done; apply Array_sort_Permutation. Qed.

(** X19. [applyFiltersAndSorting] shows exactly the tasks that pass both
    filters, each as often as it occurs, among the tasks it starts from:
    the search result when the trimmed query is not empty, the loaded
    list otherwise.  Sorting only rearranges them, and with no sort they
    keep their order. *)
Theorem applyFiltersAndSorting_spec getTime st allTasks searchQuery sortBy filterBy
    priorityFilter :
  applyFiltersAndSorting getTime st allTasks searchQuery sortBy filterBy priorityFilter
  ≡ₚ filter (λ t, passesStatus filterBy t ∧ passesPriority priorityFilter t)
       (tasksToFilter st allTasks searchQuery)
  ∧ (∀ t, t ∈ applyFiltersAndSorting getTime st allTasks searchQuery sortBy filterBy
                priorityFilter
          ↔ t ∈ tasksToFilter st allTasks searchQuery
            ∧ passesStatus filterBy t ∧ passesPriority priorityFilter t)
  ∧ applyFiltersAndSorting getTime st allTasks searchQuery sort_none filterBy
      priorityFilter
    = filter (λ t, passesStatus filterBy t ∧ passesPriority priorityFilter t)
        (tasksToFilter st allTasks searchQuery).
Proof.
  assert (∀ sortBy',
            applyFiltersAndSorting getTime st allTasks searchQuery sortBy' filterBy
              priorityFilter
            = applySorting getTime sortBy'
                (filter (λ t, passesStatus filterBy t ∧ passesPriority priorityFilter t)
                        (tasksToFilter st allTasks searchQuery))) as Heq.
  { intros sortBy'. unfold applyFiltersAndSorting.
    assert ((if negb (String.eqb (trim searchQuery) "")
             then searchTasks (trim searchQuery) st else allTasks)
            = tasksToFilter st allTasks searchQuery) as ->.
    { unfold tasksToFilter.
      destruct (String.eqb_spec (trim searchQuery) "") as [Hq|Hq]; simpl.
      - by rewrite decide_True.
      - by rewrite decide_False. }
    rewrite applyPriorityFilter_filter, applyStatusFilter_filter, list_filter_filter.
    f_equal. apply list_filter_iff. intros t. tauto. }
  split_and!.
  - rewrite Heq. apply applySorting_Permutation.
  - intros t. rewrite Heq, applySorting_Permutation, list_elem_of_filter. tauto.
  - by rewrite Heq.
Qed.

Example applyFiltersAndSorting_example :
  description
    <$> applyFiltersAndSorting januaryDates sharedStore (getTasks sharedStore)
          "  ROOM " sort_deadline filter_active None
  = ["Mop Room 202"; "Clean Room 101"]
  ∧ description
      <$> applyFiltersAndSorting januaryDates sharedStore (getTasks sharedStore)
            "   " sort_priority filter_assigned (Some high)
    = ["Vacuum Hallway"; "Clean Room 101"].
Proof. split; by_evaluation. Qed.

(** ** Export *)

Lemma join_snoc sep cells cell :
  cells ≠ [] → join sep (cells ++ [cell]) = join sep cells +:+ sep +:+ cell.
Proof.
  induction cells as [|c cells IH]; [done|]. intros _.
  destruct cells as [|c' cells]; [done|].
  change (join sep ((c :: c' :: cells) ++ [cell]))
    with (c +:+ sep +:+ join sep ((c' :: cells) ++ [cell])).
  rewrite IH by done.
  change (join sep (c :: c' :: cells)) with (c +:+ sep +:+ join sep (c' :: cells)).
  by rewrite !append_assoc.
Qed.

(** X20. Each record is one more line of the export: after [addTask] the
    task export is the old export, a line feed and the line of the new
    task; after [addWorker] the worker export grows in the same way; and
    the export of the empty store is the header line alone.  The cells are
    wrapped in double quotes as they are, without escaping. *)
Theorem export_grows_by_one_line numberToString st :
  (∀ desc p estimate dl now task st',
     addTask desc p estimate dl now st = Ok (task, st') →
     exportTasksToCSV numberToString st'
     = exportTasksToCSV numberToString st +:+ lineFeed
       +:+ csvLine (taskRow numberToString task))
  ∧ (∀ name,
       exportWorkersToCSV numberToString (addWorker name st).2
       = exportWorkersToCSV numberToString st +:+ lineFeed
         +:+ csvLine (workerRow numberToString (addWorker name st).1))
  ∧ exportTasksToCSV numberToString initialState = csvLine taskHeaders
  ∧ exportWorkersToCSV numberToString initialState = csvLine workerHeaders.
Proof.
  split_and!; [| |done..].
  - intros desc p estimate dl now task st' [= <- <-].
    unfold exportTasksToCSV; simpl tasks.
    rewrite fmap_app, app_comm_cons, fmap_app.
    by apply (join_snoc lineFeed (csvLine <$> taskHeaders :: _) (csvLine (taskRow _ _))).
  - intros name. unfold exportWorkersToCSV; simpl workers.
    rewrite fmap_app, app_comm_cons, fmap_app.
    by apply (join_snoc lineFeed (csvLine <$> workerHeaders :: _)
                (csvLine (workerRow _ _))).
Qed.

Example exportTasksToCSV_example :
  exportTasksToCSV (λ _, "5") (run [OpAddTaskOf cleanRoom] initialState)
  = csvLine taskHeaders +:+ lineFeed
    +:+ doubleQuote +:+ "T001" +:+ doubleQuote +:+ ","
    +:+ doubleQuote +:+ "Clean Room 101" +:+ doubleQuote +:+ ","
    +:+ doubleQuote +:+ "high" +:+ doubleQuote +:+ ","
    +:+ doubleQuote +:+ "5" +:+ doubleQuote +:+ ","
    +:+ doubleQuote +:+ "2024-01-10" +:+ doubleQuote +:+ ","
    +:+ doubleQuote +:+ "Unassigned" +:+ doubleQuote +:+ ","
    +:+ doubleQuote +:+ "Active" +:+ doubleQuote +:+ ","
    +:+ doubleQuote +:+ "2024-01-01T08:00:00.000Z" +:+ doubleQuote.
Proof. by_evaluation. Qed.

(** ** The task form, when the assignment fails *)

(** X21. The form does not undo a creation.  On a well-formed store, with
    a description, deadline and estimate that pass the form's checks and a
    worker chosen: the task is created first; if the chosen id belongs to
    no worker, or the chosen worker is available but the estimate would
    take it over 8 hours, the form shows the assignment's error while the
    store keeps the new, unassigned task; if the estimate fits, the task is
    created and assigned. *)
Theorem handleAddTask_keeps_task getTime desc p estimate dl assignTo now st :
  wf st → trim desc ≠ "" → validateDate getTime dl = true → 0 < estimate →
  assignTo ≠ "" →
  ∃ task st1,
    addTask (trim desc) p estimate dl now st = Ok (task, st1)
    ∧ task ∈ tasks st1 ∧ assignedTo task = None
    ∧ (assignTo ∉ worker_id <$> workers st →
       handleAddTask getTime desc p estimate dl assignTo now st
       = (ShowError (message (WorkerNotFound assignTo)), st1))
    ∧ (∀ w, w ∈ workers st → worker_id w = assignTo → availability w = true →
            MAX_WORK_HOURS_PER_DAY < totalAssignedHours w + estimate →
            handleAddTask getTime desc p estimate dl assignTo now st
            = (ShowError (message (WouldExceedMaximumHours (worker_name w))), st1))
    ∧ (∀ w, w ∈ workers st → worker_id w = assignTo → availability w = true →
            totalAssignedHours w + estimate ≤ MAX_WORK_HOURS_PER_DAY →
            ∃ st2,
              assignTaskToWorker (task_id task) assignTo st1 = Ok st2
              ∧ handleAddTask getTime desc p estimate dl assignTo now st
                = (ShowCreatedAndAssigned task assignTo, st2)).
Proof.
  intros Hwf Hdesc Hdate Hpos Hassign.
  destruct (addTask (trim desc) p estimate dl now st) as [[task st1]|] eqn:Hadd;
    [|done].
  pose proof (addTask_wf _ _ _ _ _ _ _ _ Hwf Hadd) as [Hcon1 _].
  assert (handleAddTask getTime desc p estimate dl assignTo now st
          = match assignTaskToWorker (task_id task) assignTo st1 with
            | Ok st2 => (ShowCreatedAndAssigned task assignTo, st2)
            | Throw e => (ShowError (message e), st1)
            end) as Hhandle.
  { unfold handleAddTask.
    destruct (String.eqb_spec (trim desc) "") as [|_]; [done|].
    rewrite Hdate. cbn [negb]. rewrite (ltb_not_leb _ _ Hpos).
    rewrite Hadd. by destruct (String.eqb_spec assignTo "") as [|_]. }
  injection Hadd as <- <-.
  set (task := {| task_id := taskIdOf (nextTaskId st) |}) in *.
  set (st1 := {| tasks := tasks st ++ [task] |}) in *.
  assert (tasks st1 !! length (tasks st) = Some task) as Hi
    by by apply list_lookup_middle.
  exists task, st1. split_and!; [done|by eapply list_elem_of_lookup_2|done| | |].
  - intros Hnot. rewrite Hhandle.
    rewrite (unknown_worker_lookup st1 task assignTo Hcon1);
      [done|by eapply list_elem_of_lookup_2|done].
  - intros w [j Hj]%list_elem_of_lookup <- Hav Hover. rewrite Hhandle.
    rewrite (assign_eval st1 _ task j w Hcon1 Hi Hj), Hav. simpl.
    change (timeEstimate task) with estimate. by rewrite Hover.
  - intros w [j Hj]%list_elem_of_lookup <- Hav Hfits.
    rewrite Hhandle, (assign_eval st1 _ task j w Hcon1 Hi Hj), Hav. simpl.
    change (timeEstimate task) with estimate. rewrite (leb_not_ltb _ _ Hfits).
    by eexists.
Qed.

Lemma handleAddTask_keeps_task_witness :
  ∃ task st1,
    addTask (trim " Dust Shelves ") medium 4 "2024-01-05" "now" busyStore
    = Ok (task, st1)
    ∧ task ∈ tasks st1 ∧ assignedTo task = None
    ∧ ("W001" ∉ worker_id <$> workers busyStore →
       handleAddTask januaryDates " Dust Shelves " medium 4 "2024-01-05"
         "W001" "now" busyStore
       = (ShowError (message (WorkerNotFound "W001")), st1))
    ∧ (∀ w, w ∈ workers busyStore → worker_id w = "W001" → availability w = true →
            MAX_WORK_HOURS_PER_DAY < totalAssignedHours w + 4 →
            handleAddTask januaryDates " Dust Shelves " medium 4 "2024-01-05"
              "W001" "now" busyStore
            = (ShowError (message (WouldExceedMaximumHours (worker_name w))), st1))
    ∧ (∀ w, w ∈ workers busyStore → worker_id w = "W001" → availability w = true →
            totalAssignedHours w + 4 ≤ MAX_WORK_HOURS_PER_DAY →
            ∃ st2,
              assignTaskToWorker (task_id task) "W001" st1 = Ok st2
              ∧ handleAddTask januaryDates " Dust Shelves " medium 4
                  "2024-01-05" "W001" "now" busyStore
                = (ShowCreatedAndAssigned task "W001", st2)).
Proof.
  apply (handleAddTask_keeps_task januaryDates " Dust Shelves " medium 4
           "2024-01-05" "W001" "now" busyStore).
  - apply busyStore_wf.
  - by_evaluation.
  - reflexivity.
  - by_evaluation.
  - by_evaluation.
Defined.

Example handleAddTask_over_capacity :
  (handleAddTask januaryDates " Dust Shelves " medium 4 "2024-01-05"
     "W001" "now" busyStore).1
  = ShowError "Worker Ann would exceed maximum hours (8)"
  ∧ description
      <$> tasks (handleAddTask januaryDates " Dust Shelves " medium 4
                   "2024-01-05" "W001" "now" busyStore).2
    = ["Clean Room 101"; "Vacuum Hallway"; "Mop Room 202"; "Dust Shelves"].
Proof. split; [reflexivity|by_evaluation]. Qed.
